(** * Terminal Markdown Presenter (scripts/present-markdown.mjs)

    A shallow embedding of the presenter's pure core: the document parser
    [parseMarkdown], the inline formatter [formatContent], the line wrapper
    [wrapLine], the page renderer [formatPage] and the key handler of [main].

    JavaScript strings are sequences of UTF-16 code units; a code unit is a
    number [N] and a string is a list of them.  JavaScript arrays become
    lists, [null] becomes [None], and exceptions and non-termination become
    the error cases of [outcome]. *)

From Stdlib Require Import String Ascii DecimalString.
From Stdlib Require Import List ZArith NArith Arith Lia Bool.
Import ListNotations.

Set Implicit Arguments.

(* ================================================================== *)
(** ** Strings *)
(* ================================================================== *)

Definition char := N.
Definition str := list char.

(** A code unit and a string written as ASCII literals. *)
Definition ch (a : ascii) : char := N_of_ascii a.
Definition lit (s : string) : str := map N_of_ascii (list_ascii_of_string s).

Definition nl : char := 10%N.
Definition space : char := 32%N.

(** JavaScript truthiness of a string: the empty string is falsy. *)
Definition truthy (s : str) : bool :=
  match s with [] => false | _ :: _ => true end.

(** Truthiness of a value that is a string or [null]. *)
Definition truthy_opt (o : option str) : bool :=
  match o with Some s => truthy s | None => false end.

(** The characters matched by [\s], which are also those removed by
    [String.prototype.trim] (WhiteSpace and LineTerminator). *)
Definition is_space (c : char) : bool :=
  ((9 <=? c) && (c <=? 13) || (c =? 32) || (c =? 160) || (c =? 5760)
   || (8192 <=? c) && (c <=? 8202) || (c =? 8232) || (c =? 8233)
   || (c =? 8239) || (c =? 8287) || (c =? 12288) || (c =? 65279))%N.

(** LineTerminator: the characters [.] refuses and after which a
    multiline [^] matches. *)
Definition is_line_terminator (c : char) : bool :=
  ((c =? 10) || (c =? 13) || (c =? 8232) || (c =? 8233))%N.

(** [.] *)
Definition is_dot (c : char) : bool := negb (is_line_terminator c).

(** [\d] and [\w] *)
Definition is_digit (c : char) : bool := ((48 <=? c) && (c <=? 57))%N.
Definition is_word (c : char) : bool :=
  (is_digit c || (65 <=? c) && (c <=? 90) || (97 <=? c) && (c <=? 122)
   || (c =? 95))%N.

(** A character class with one member, and its complement. *)
Definition is_char (a c : char) : bool := (c =? a)%N.
Definition not_char (a c : char) : bool := negb (c =? a)%N.

Fixpoint drop_while (p : char -> bool) (s : str) : str :=
  match s with
  | [] => []
  | c :: s' => if p c then drop_while p s' else s
  end.

Definition trimStart (s : str) : str := drop_while is_space s.
Definition trimEnd (s : str) : str := rev (drop_while is_space (rev s)).
Definition trim (s : str) : str := trimEnd (trimStart s).

(** The pieces of [s] between the characters that satisfy [p]: never the
    empty list. *)
Fixpoint split_by (p : char -> bool) (s : str) : list str :=
  match s with
  | [] => [[]]
  | c :: s' =>
      if p c then [] :: split_by p s'
      else match split_by p s' with
           | w :: ws => (c :: w) :: ws
           | [] => [[c]]
           end
  end.

(** [s.split(sep)] for a one-character separator. *)
Definition split_on (sep : char) (s : str) : list str :=
  split_by (is_char sep) s.

(** [xs.join(sep)] *)
Fixpoint join (sep : str) (xs : list str) : str :=
  match xs with
  | [] => []
  | x :: rest =>
      match rest with
      | [] => x
      | _ :: _ => x ++ sep ++ join sep rest
      end
  end.

(** [s.slice(i, j)] for [0 <= i <= j]. *)
Definition slice (i j : nat) (s : str) : str := firstn (j - i) (skipn i s).

(** [s.repeat(n)] for [n >= 0]. *)
Fixpoint repeat_str (s : str) (n : nat) : str :=
  match n with
  | O => []
  | S m => s ++ repeat_str s m
  end.

(* ================================================================== *)
(** ** Outcomes *)
(* ================================================================== *)

(** What running a piece of the program can end in: a value, a thrown
    [RangeError] ([String.prototype.repeat] with a negative count), or a
    loop that was still running when its iteration budget ran out. *)
Inductive outcome (A : Type) : Type :=
| Ok (a : A)
| RangeError
| Diverges.

Arguments Ok {A} a.
Arguments RangeError {A}.
Arguments Diverges {A}.

Definition bind {A B : Type} (m : outcome A) (f : A -> outcome B) : outcome B :=
  match m with
  | Ok a => f a
  | RangeError => RangeError
  | Diverges => Diverges
  end.

Notation "x <- m ;; k" := (bind m (fun x => k))
  (at level 61, m at next level, right associativity).

(** [xs.flatMap(f)] for an [f] that can fail. *)
Fixpoint flatMapM {A B : Type} (f : A -> outcome (list B)) (xs : list A)
  : outcome (list B) :=
  match xs with
  | [] => Ok []
  | x :: rest =>
      ys <- f x ;;
      zs <- flatMapM f rest ;;
      Ok (ys ++ zs)
  end.

(** [s.repeat(n)]: throws for a negative count. *)
Definition js_repeat (s : str) (n : Z) : outcome str :=
  if (n <? 0)%Z then RangeError else Ok (repeat_str s (Z.to_nat n)).

(* ================================================================== *)
(** ** Regular expressions *)
(* ================================================================== *)

(** Every regular expression of the program is a sequence of atoms: a
    literal character, a quantified character class (greedy or lazy,
    possibly the one capture group), [^] (with or without the [m] flag)
    and [$] (without it). *)
Inductive atom : Type :=
| Lit (c : char)
| Cls (p : char -> bool) (lo : nat) (hi : option nat) (greedy cap : bool)
| Bol (multiline : bool)
| Eol.

Definition regex := list atom.

(** Shorthands: [X], [X+], [(X+)], [X{lo,hi}], [X?], [X*?]. *)
Definition one (p : char -> bool) : atom := Cls p 1 (Some 1) true false.
Definition plus (p : char -> bool) : atom := Cls p 1 None true false.
Definition group_plus (p : char -> bool) : atom := Cls p 1 None true true.
Definition between (p : char -> bool) (lo hi : nat) : atom :=
  Cls p lo (Some hi) true false.
Definition opt (p : char -> bool) : atom := Cls p 0 (Some 1) true false.
Definition lazy_star (p : char -> bool) : atom := Cls p 0 None false false.

Fixpoint run_len (p : char -> bool) (s : str) : nat :=
  match s with
  | c :: s' => if p c then S (run_len p s') else 0
  | [] => 0
  end.

Definition bounded (n : nat) (hi : option nat) : nat :=
  match hi with Some h => Nat.min n h | None => n end.

(** The character before the current position, after [taken] was consumed. *)
Fixpoint prev_after (prev : option char) (taken : str) : option char :=
  match taken with
  | [] => prev
  | c :: t => prev_after (Some c) t
  end.

(** [^]: at the start of the input, or with the [m] flag after a line
    terminator. *)
Definition at_bol (multiline : bool) (prev : option char) : bool :=
  match prev with
  | None => true
  | Some c => multiline && is_line_terminator c
  end.

(** Backtracking order of a greedy quantifier: [n], [n-1], ..., [lo]. *)
Fixpoint try_down {A : Type} (f : nat -> option A) (lo n : nat) : option A :=
  if n <? lo then None
  else match f n with
       | Some r => Some r
       | None => match n with
                 | O => None
                 | S m => try_down f lo m
                 end
       end.

(** Backtracking order of a lazy quantifier: [k], [k+1], ..., [cnt] tries. *)
Fixpoint try_up {A : Type} (f : nat -> option A) (k cnt : nat) : option A :=
  match cnt with
  | O => None
  | S c => match f k with
           | Some r => Some r
           | None => try_up f (S k) c
           end
  end.

(** Match [r] at the current position: the length matched and the text of
    the capture group. [prev] is the character before the position
    ([None] at the start of the input). *)
Fixpoint rx (r : regex) (prev : option char) (s : str)
  : option (nat * option str) :=
  match r with
  | [] => Some (0, None)
  | Lit c :: r' =>
      match s with
      | d :: s' =>
          if (d =? c)%N then
            match rx r' (Some d) s' with
            | Some (m, g) => Some (S m, g)
            | None => None
            end
          else None
      | [] => None
      end
  | Bol m :: r' => if at_bol m prev then rx r' prev s else None
  | Eol :: r' => match s with [] => rx r' prev s | _ :: _ => None end
  | Cls p lo hi greedy cap :: r' =>
      let n := bounded (run_len p s) hi in
      let attempt := fun k =>
        match rx r' (prev_after prev (firstn k s)) (skipn k s) with
        | Some (m, g) => Some (k + m, if cap then Some (firstn k s) else g)
        | None => None
        end in
      if greedy then try_down attempt lo n else try_up attempt lo (S n - lo)
  end.

(** The leftmost match: its start, its length and its capture. *)
Fixpoint rx_search (r : regex) (prev : option char) (s : str)
  : option (nat * nat * option str) :=
  match rx r prev s with
  | Some (n, g) => Some (0, n, g)
  | None =>
      match s with
      | [] => None
      | c :: s' =>
          match rx_search r (Some c) s' with
          | Some (i, n, g) => Some (S i, n, g)
          | None => None
          end
      end
  end.

(** [s.match(r)] for an [r] without the [g] flag, read at [[1]]: the
    capture group of the leftmost match, [None] for [null]. *)
Definition js_match (r : regex) (s : str) : option str :=
  match rx_search r None s with
  | Some (_, _, g) => Some (match g with Some t => t | None => [] end)
  | None => None
  end.

(** The truthiness of [s.match(r)]. *)
Definition js_test (r : regex) (s : str) : bool :=
  match rx_search r None s with Some _ => true | None => false end.

(** [s.replace(r, rep)] for an [r] without the [g] flag and a [rep]
    without [$]: the leftmost match only. *)
Definition replace_first (r : regex) (rep : str) (s : str) : str :=
  match rx_search r None s with
  | Some (i, n, _) => firstn i s ++ rep ++ skipn (i + n) s
  | None => s
  end.

(** [s.replace(r, f)] for an [r] with the [g] flag: every match, left to
    right, none overlapping. [f] receives the matched text and the capture.
    [skip] counts the characters of the last match still to step over; an
    empty match is replaced and the scan moves one character on. *)
Fixpoint replace_all_from (r : regex) (f : str -> option str -> str)
    (skip : nat) (prev : option char) (s : str) : str :=
  match s with
  | [] =>
      match skip with
      | O => match rx r prev [] with
             | Some (_, g) => f [] g
             | None => []
             end
      | S _ => []
      end
  | c :: s' =>
      match skip with
      | S k => replace_all_from r f k (Some c) s'
      | O =>
          match rx r prev s with
          | Some (O, g) => f [] g ++ c :: replace_all_from r f 0 (Some c) s'
          | Some (S k, g) =>
              f (firstn (S k) s) g ++ replace_all_from r f k (Some c) s'
          | None => c :: replace_all_from r f 0 (Some c) s'
          end
      end
  end.

Definition replace_all (r : regex) (f : str -> option str -> str) (s : str)
  : str :=
  replace_all_from r f 0 None s.

(** A replacement string without [$]. *)
Definition rep_const (t : str) : str -> option str -> str := fun _ _ => t.

(** The replacement string [`${pre}$1${post}`]. *)
Definition rep_wrap (pre post : str) : str -> option str -> str :=
  fun _ g => pre ++ (match g with Some t => t | None => [] end) ++ post.

(* ================================================================== *)
(** ** Document parser *)
(* ================================================================== *)

Inductive page_type : Type :=
| TitlePage    (* type: "title" *)
| ContentPage. (* type: "page" *)

(** A page. A title page has no [subtitle] property; a content page has a
    string or [null]. *)
Record Page : Type := mkPage {
  type : page_type;
  title : str;
  subtitle : option str;
  content : str
}.

(** An element of [subPages]. *)
Record SubPage : Type := mkSubPage {
  sp_subtitle : option str;
  sp_content : str
}.

Definition hash : char := ch "#".

(** [/^#\s+(.+)$/] *)
Definition h1_re : regex :=
  [Bol false; Lit hash; plus is_space; group_plus is_dot; Eol].
(** [/^#{1,3}\s/] *)
Definition heading_re : regex :=
  [Bol false; between (is_char hash) 1 3; one is_space].
(** [/^##\s+(.+)$/] *)
Definition h2_re : regex :=
  [Bol false; Lit hash; Lit hash; plus is_space; group_plus is_dot; Eol].
(** [/^###\s+(.+)$/] *)
Definition h3_re : regex :=
  [Bol false; Lit hash; Lit hash; Lit hash; plus is_space;
   group_plus is_dot; Eol].
(** [/^##\s+/] *)
Definition h2Next_re : regex :=
  [Bol false; Lit hash; Lit hash; plus is_space].
(** [/^###\s+[^\n]+\n?/] *)
Definition h3_line_re : regex :=
  [Bol false; Lit hash; Lit hash; Lit hash; plus is_space;
   plus (not_char nl); opt (is_char nl)].

(** The body of the inner [while] of the title loop (lines 55 to 58):
    the lines up to the next heading of level 1 to 3, and the lines left. *)
Fixpoint title_content (lines : list str) : list str * list str :=
  match lines with
  | [] => ([], [])
  | l :: rest =>
      if js_test heading_re l then ([], lines)
      else let (c, rest') := title_content rest in (l :: c, rest')
  end.

(** The title loop (lines 49 to 67): the pages pushed and the lines from
    index [i] on when the loop is left. When no line is a top-level
    heading the loop ends with [i = lines.length]. *)
Fixpoint title_loop (lines : list str) : list Page * list str :=
  match lines with
  | [] => ([], [])
  | line :: rest =>
      match js_match h1_re line with
      | Some h1 =>
          let (c, rest') := title_content rest in
          ([mkPage TitlePage (trim h1) None (trim (join [nl] c))], rest')
      | None => title_loop rest
      end
  end.

(** The block that occurs three times (lines 86 to 96, 102 to 112 and
    123 to 133): push the pending lines as a sub-page unless they are
    empty or blank. *)
Definition push_pending (currentContent : list str) (subPages : list SubPage)
  : list SubPage :=
  match currentContent with
  | [] => subPages
  | firstLine :: _ =>
      let trimmed := trim (join [nl] currentContent) in
      if truthy trimmed then
        subPages ++
          [mkSubPage (option_map trim (js_match h3_re firstLine)) trimmed]
      else subPages
  end.

(** The section loop (lines 80 to 120): [subPages], [currentContent],
    [brokeDueToH2] and the lines from index [i] on when it is left. *)
Fixpoint section_loop (lines : list str) (currentContent : list str)
    (subPages : list SubPage)
  : list SubPage * list str * bool * list str :=
  match lines with
  | [] => (subPages, currentContent, false, [])
  | l :: rest =>
      if js_test h2Next_re l then
        (push_pending currentContent subPages, currentContent, true, lines)
      else
        match js_match h3_re l with
        | Some _ =>
            section_loop rest [l] (push_pending currentContent subPages)
        | None => section_loop rest (currentContent ++ [l]) subPages
        end
  end.

(** The body of the [for ... of subPages] loop (lines 144 to 152): the
    page pushed for one sub-page. *)
Definition page_of_subPage (pageTitle : str) (sp : SubPage) : Page :=
  let content :=
    if truthy_opt (sp_subtitle sp)
    then trim (replace_first h3_line_re [] (sp_content sp))
    else sp_content sp in
  mkPage ContentPage pageTitle (sp_subtitle sp) content.

(** Lines 135 to 154: the pages of one section. *)
Definition section_pages (pageTitle : str) (subPages : list SubPage)
  : list Page :=
  match subPages with
  | [] => [mkPage ContentPage pageTitle None []]
  | _ :: _ => map (page_of_subPage pageTitle) subPages
  end.

(** Lines 122 to 133, after the section loop: the pending lines are
    pushed unless the loop was left at a second-level heading (which
    pushed them). The result is the final [subPages] and the lines from
    index [i] on. *)
Definition finish_section (r : list SubPage * list str * bool * list str)
  : list SubPage * list str :=
  let '(subPages, currentContent, brokeDueToH2, rest) := r in
  (if negb brokeDueToH2 then push_pending currentContent subPages
   else subPages,
   rest).

(** The page loop (lines 70 to 158). Each iteration moves [i] forward, so
    one unit of [fuel] per line and one for the last test is enough. *)
Fixpoint page_loop (fuel : nat) (lines : list str) : outcome (list Page) :=
  match fuel with
  | O => Diverges
  | S fuel' =>
      match lines with
      | [] => Ok []
      | line :: rest =>
          match js_match h2_re line with
          | Some h2 =>
              let (subPages, rest') :=
                finish_section (section_loop rest [] []) in
              more <- page_loop fuel' rest' ;;
              Ok (section_pages (trim h2) subPages ++ more)
          | None => page_loop fuel' rest
          end
      end
  end.

Definition parse_lines (lines : list str) : outcome (list Page) :=
  let (pages, rest) := title_loop lines in
  more <- page_loop (S (length rest)) rest ;;
  Ok (pages ++ more).

Definition parseMarkdown (md : str) : outcome (list Page) :=
  parse_lines (split_on nl md).

(* ================================================================== *)
(** ** Inline style formatter *)
(* ================================================================== *)

Definition ESC : str := [27%N].
Definition showCursor : str := ESC ++ lit "[?25h".

Definition green : str := ESC ++ lit "[32m".
Definition red : str := ESC ++ lit "[31m".
Definition cyan : str := ESC ++ lit "[36m".
Definition orange : str := ESC ++ lit "[38;5;208m".
Definition reset : str := ESC ++ lit "[0m".

Definition backtick : char := ch "`".
Definition star : char := ch "*".
Definition underscore : char := ch "_".
Definition bullet : char := 8226%N.

Definition any_char (c : char) : bool := true.

(** [/```[\s\S]*?```/g] *)
Definition fence_re : regex :=
  [Lit backtick; Lit backtick; Lit backtick; lazy_star any_char;
   Lit backtick; Lit backtick; Lit backtick].
(** [/^\w+$/] *)
Definition lang_re : regex := [Bol false; plus is_word; Eol].
(** [/\s+$/] *)
Definition trailing_space_re : regex := [plus is_space; Eol].
(** [/^#{1,6}\s+/gm] *)
Definition heading_marker_re : regex :=
  [Bol true; between (is_char hash) 1 6; plus is_space].
(** [/\*\*([^*]+)\*\*/g] *)
Definition bold_star_re : regex :=
  [Lit star; Lit star; group_plus (not_char star); Lit star; Lit star].
(** [/__([^_]+)__/g] *)
Definition bold_underscore_re : regex :=
  [Lit underscore; Lit underscore; group_plus (not_char underscore);
   Lit underscore; Lit underscore].
(** [/\*([^*]+)\*/g] *)
Definition italic_star_re : regex :=
  [Lit star; group_plus (not_char star); Lit star].
(** [/_([^_]+)_/g] *)
Definition italic_underscore_re : regex :=
  [Lit underscore; group_plus (not_char underscore); Lit underscore].
(** [/`([^`]+)`/g] *)
Definition code_re : regex :=
  [Lit backtick; group_plus (not_char backtick); Lit backtick].
(** [/\[([^\]]+)\]\([^)]+\)/g] *)
Definition link_re : regex :=
  [Lit (ch "["); group_plus (not_char (ch "]")); Lit (ch "]"); Lit (ch "(");
   plus (not_char (ch ")")); Lit (ch ")")].
(** [/^[-*]\s+/gm] *)
Definition bullet_re : regex :=
  [Bol true; one (fun c => is_char (ch "-") c || is_char star c);
   plus is_space].
(** [/^\d+\.\s+/gm] *)
Definition ordered_re : regex :=
  [Bol true; plus is_digit; Lit (ch "."); plus is_space].

(** The callback of the first [replace] (lines 165 to 172). *)
Definition format_block (block : str) : str :=
  let lines := split_on nl (slice 3 (length block - 3) block) in
  match lines with
  | [] => []
  | line0 :: tail =>
      let lang := if js_test lang_re line0 then Some line0 else None in
      let codeLines := if truthy_opt lang then tail else lines in
      join [nl]
        (map (fun l =>
                orange ++ lit "  " ++ replace_first trailing_space_re [] l
                  ++ reset)
             codeLines)
  end.

(** The replacements of [formatContent], in the order they are applied. *)
Definition fence_pass : str -> str :=
  replace_all fence_re (fun block _ => format_block block).
Definition heading_marker_pass : str -> str :=
  replace_all heading_marker_re (rep_const []).
Definition bold_star_pass : str -> str :=
  replace_all bold_star_re (rep_wrap red reset).
Definition bold_underscore_pass : str -> str :=
  replace_all bold_underscore_re (rep_wrap red reset).
Definition italic_star_pass : str -> str :=
  replace_all italic_star_re (rep_wrap cyan reset).
Definition italic_underscore_pass : str -> str :=
  replace_all italic_underscore_re (rep_wrap cyan reset).
Definition code_pass : str -> str :=
  replace_all code_re (rep_wrap orange reset).
Definition link_pass : str -> str :=
  replace_all link_re (rep_wrap [] []).
Definition bullet_pass : str -> str :=
  replace_all bullet_re (rep_const (lit "  " ++ [bullet; space])).
Definition ordered_pass : str -> str :=
  replace_all ordered_re (rep_const (lit "  ")).

Definition formatContent (text : str) : str :=
  let result := fence_pass text in
  ordered_pass (bullet_pass (link_pass (code_pass (italic_underscore_pass
    (italic_star_pass (bold_underscore_pass (bold_star_pass
      (heading_marker_pass result)))))))).

(* ================================================================== *)
(** ** Line wrapper *)
(* ================================================================== *)

(** The [for] loop of lines 220 to 222, from index [i]: the chunks pushed.
    Each iteration costs one unit of [fuel]; with [width = 0] the index
    never moves and the loop does not end. *)
Fixpoint chunk_loop (fuel : nat) (w : str) (width i : nat)
  : outcome (list str) :=
  match fuel with
  | O => Diverges
  | S fuel' =>
      if i <? length w then
        more <- chunk_loop fuel' w width (i + width) ;;
        Ok (slice i (i + width) w :: more)
      else Ok []
  end.

(** [if (current) result.push(current)] *)
Definition flush (result : list str) (current : str) : list str :=
  if truthy current then result ++ [current] else result.

(** The [for ... of words] loop of lines 214 to 229 and the last flush,
    from the state [(result, current)]. *)
Fixpoint wrap_words (fuel width : nat) (words : list str)
    (result : list str) (current : str) : outcome (list str) :=
  match words with
  | [] => Ok (flush result current)
  | w :: rest =>
      if width <? length w then
        chunks <- chunk_loop fuel w width 0 ;;
        wrap_words fuel width rest (flush result current ++ chunks) []
      else if length current + length w + 1 <=? width then
        wrap_words fuel width rest result
          (current ++ (if truthy current then [space] else []) ++ w)
      else
        wrap_words fuel width rest (flush result current) w
  end.

(** [wrapLine(line, width)] for an integer [width >= 0] (a negative width
    behaves as [0] does: an empty word flushes the line, any other word
    never leaves the chunk loop). *)
Definition wrapLine (line : str) (width : nat) : outcome (list str) :=
  wrap_words (S (length line)) width (split_on space line) [] [].

(* ================================================================== *)
(** ** Page renderer *)
(* ================================================================== *)

Local Open Scope Z_scope.

Definition MIN_COLUMNS_FOR_PADDING : Z := 100.
Definition LEFT_PADDING_SPACES : Z := 4.

Record Size : Type := mkSize { rows : Z; columns : Z }.

Definition addLeftPadding (text : str) (columns : Z) : outcome str :=
  if columns <? MIN_COLUMNS_FOR_PADDING then Ok text
  else
    pad <- js_repeat [space] LEFT_PADDING_SPACES ;;
    Ok (join [nl] (map (fun line => pad ++ line) (split_on nl text))).

(** The two counts handed to [repeat] in [padContentBelow]. *)
Definition top_padding (contentHeight availableRows : Z) : Z :=
  Z.max 0 ((availableRows - contentHeight) / 2).
Definition bottom_padding (contentHeight availableRows : Z) : Z :=
  Z.max 0
    (availableRows - top_padding contentHeight availableRows - contentHeight).

Definition padContentBelow (contentLines : list str) (availableRows : Z)
  : outcome str :=
  let contentHeight := Z.of_nat (length contentLines) in
  let padding := top_padding contentHeight availableRows in
  top <- js_repeat [nl] padding ;;
  bottom <- js_repeat [nl] (bottom_padding contentHeight availableRows) ;;
  Ok (top ++ join [nl] contentLines ++ bottom).

(** The expression bound to [contentLines] in both branches of
    [formatPage]. *)
Definition content_lines (page : Page) (contentWidth : Z)
  : outcome (list str) :=
  if truthy (content page) then
    flatMapM (fun cl => wrapLine cl (Z.to_nat contentWidth))
      (filter truthy (split_on nl (formatContent (content page))))
  else Ok [].

Definition formatPage (page : Page) (size : Size) : outcome str :=
  let totalRows := rows size - 1 in
  let leftPadding :=
    if MIN_COLUMNS_FOR_PADDING <=? columns size then LEFT_PADDING_SPACES
    else 0 in
  let contentWidth := columns size - leftPadding in
  output <-
    match type page with
    | TitlePage =>
        let header := green ++ title page ++ reset ++ [nl] in
        contentLines <- content_lines page contentWidth ;;
        let availableForContent := totalRows - 1 in
        body <- padContentBelow contentLines availableForContent ;;
        Ok (header ++ body)
    | ContentPage =>
        let headerLines :=
          (green ++ title page ++ reset) ::
          (match subtitle page with
           | Some sub =>
               if truthy sub
               then [[]; lit "  " ++ green ++ sub ++ reset]
               else []
           | None => []
           end) in
        let header := join [nl] headerLines ++ [nl] in
        contentLines <- content_lines page contentWidth ;;
        let headerHeight := Z.of_nat (length headerLines) in
        let availableForContent := totalRows - headerHeight in
        body <- padContentBelow contentLines (Z.max 0 availableForContent) ;;
        Ok (header ++ body)
    end ;;
  addLeftPadding output (columns size).

(* ================================================================== *)
(** ** Navigation *)
(* ================================================================== *)

Fixpoint str_eqb (a b : str) : bool :=
  match a, b with
  | [], [] => true
  | x :: a', y :: b' => (x =? y)%N && str_eqb a' b'
  | _, _ => false
  end.

(** What the handlers write to the terminal. *)
Inductive effect : Type :=
| Rendered (index : Z)      (* render(pages[idx], idx, pages.length) *)
| ClearedAndExited.         (* clearScreen + showCursor, process.exit(0) *)

(** The session: [idx], and whether [process.exit] was called. *)
Record session : Type := mkSession { idx : Z; exited : bool }.

Definition key_q : str := lit "q".
Definition key_ctrl_c : str := [3%N].
Definition key_n : str := lit "n".
Definition key_space : str := lit " ".
Definition key_right : str := [27%N] ++ lit "[C".
Definition key_j : str := lit "j".
Definition key_enter : str := [13%N].
Definition key_p : str := lit "p".
Definition key_b : str := lit "b".
Definition key_left : str := [27%N] ++ lit "[D".
Definition key_k : str := lit "k".

Definition is_quit (k : str) : bool :=
  str_eqb k key_q || str_eqb k key_ctrl_c.
Definition is_next (k : str) : bool :=
  str_eqb k key_n || str_eqb k key_space || str_eqb k key_right
  || str_eqb k key_j || str_eqb k key_enter.
Definition is_previous (k : str) : bool :=
  str_eqb k key_p || str_eqb k key_b || str_eqb k key_left
  || str_eqb k key_k.

(** The ["data"] handler (lines 307 to 327): the new session and what was
    written. [pageCount] is [pages.length]. *)
Definition on_data (pageCount : Z) (k : str) (s : session)
  : session * list effect :=
  if is_quit k then (mkSession (idx s) true, [ClearedAndExited])
  else
    let (idx1, out1) :=
      if is_next k then
        let i := Z.min (idx s + 1) (pageCount - 1) in (i, [Rendered i])
      else (idx s, []) in
    let (idx2, out2) :=
      if is_previous k then
        let i := Z.max (idx1 - 1) 0 in (i, [Rendered i])
      else (idx1, []) in
    (mkSession idx2 false, out1 ++ out2).

(** The ["resize"] handler (line 303). *)
Definition on_resize (s : session) : session * list effect :=
  (s, [Rendered (idx s)]).

Inductive event : Type :=
| Key (k : str)
| Resize.

(** One event; nothing runs once the process has exited. *)
Definition step (pageCount : Z) (s : session) (e : event)
  : session * list effect :=
  if exited s then (s, [])
  else match e with
       | Key k => on_data pageCount k s
       | Resize => on_resize s
       end.

Fixpoint run (pageCount : Z) (s : session) (es : list event)
  : session * list effect :=
  match es with
  | [] => (s, [])
  | e :: rest =>
      let (s1, out1) := step pageCount s e in
      let (s2, out2) := run pageCount s1 rest in
      (s2, out1 ++ out2)
  end.

(** [let idx = 0] *)
Definition initial : session := mkSession 0 false.

Local Close Scope Z_scope.

(* ================================================================== *)
(** ** Rendering and start-up *)
(* ================================================================== *)

Local Open Scope Z_scope.

(** [getTerminalSize()]: the rows and columns of [process.stdout], with
    24 and 80 where they are undefined. *)
Definition getTerminalSize (stdout_rows stdout_columns : option Z) : Size :=
  mkSize (match stdout_rows with Some r => r | None => 24 end)
         (match stdout_columns with Some c => c | None => 80 end).





                                (* [idx = 0], handlers installed, first
                                   render written *)





Local Close Scope Z_scope.

(* ================================================================== *)
(** ** Vocabulary of the statements *)
(* ================================================================== *)

(** The tokens of a line: its maximal runs of characters that are not
    separators. *)
Definition tokens_by (sep : char -> bool) (s : str) : list str :=
  filter truthy (split_by sep s).

(** Whitespace-separated tokens. *)
Definition tokens (s : str) : list str := tokens_by is_space s.

(** [ceil(n / d)] *)
Definition ceil_div (n d : nat) : nat := (n + d - 1) / d.

(** Every chunk has exactly [width] characters, except that the last one
    may have fewer (but at least one). *)
Fixpoint full_but_last (width : nat) (chunks : list str) : Prop :=
  match chunks with
  | [] => True
  | c :: rest =>
      match rest with
      | [] => 1 <= length c <= width
      | _ :: _ => length c = width /\ full_but_last width rest
      end
  end.

(** A line of the output: not empty and within the width. *)
Definition fits (width : nat) (l : str) : Prop := 1 <= length l <= width.

(** The styles of the formatter and the markers that start them. *)
Inductive style : Type := Bold | Italic | Code.

Definition style_start (st : style) : str :=
  match st with
  | Bold => red
  | Italic => cyan
  | Code => orange
  end.

(** [s] without its prefix [p], if it starts with [p]. *)
Fixpoint strip_prefix (p s : str) : option str :=
  match p with
  | [] => Some s
  | x :: p' =>
      match s with
      | [] => None
      | y :: s' => if (x =? y)%N then strip_prefix p' s' else None
      end
  end.

(** The text before the next reset marker. *)
Fixpoint until_reset (s : str) : str :=
  match strip_prefix reset s with
  | Some _ => []
  | None =>
      match s with
      | [] => []
      | c :: s' => c :: until_reset s'
      end
  end.

Definition span_at (st : style) (s : str) : list (style * str) :=
  match strip_prefix (style_start st) s with
  | Some rest => [(st, until_reset rest)]
  | None => []
  end.

(** The styled spans of a text, in order: for each marker that starts a
    style, the style and the text up to the next reset marker. *)
Fixpoint spans (s : str) : list (style * str) :=
  match s with
  | [] => []
  | _ :: s' => span_at Bold s ++ span_at Italic s ++ span_at Code s ++ spans s'
  end.

(** The characters that delimit bold, italic and code spans. *)
Definition is_delimiter (c : char) : bool :=
  is_char star c || is_char underscore c || is_char backtick c.

(** The replacements of [formatContent] that wrap nothing in a style. *)
Definition plain_passes (text : str) : str :=
  ordered_pass (bullet_pass (link_pass (heading_marker_pass text))).

(** A text that [trim] empties. *)
Definition blank (s : str) : bool := forallb is_space s.

(** A line of a section that neither ends the section nor starts a
    sub-page. *)
Definition plain_line (l : str) : bool :=
  negb (js_test h2Next_re l)
  && match js_match h3_re l with Some _ => false | None => true end.

(** A third-level heading as it is written: the marker, whitespace, and
    the text of the heading. *)
Definition h3_line (ws text : str) : str :=
  hash :: hash :: hash :: ws ++ text.

(** A third-level heading of a section: its line, the text the parser
    captures from it, and the lines under it. *)
Record block : Type := mkBlock {
  b_line : str;
  b_text : str;
  b_body : list str
}.

Definition block_lines (b : block) : list str := b_line b :: b_body b.

(** The line is recognised by [/^###\s+(.+)$/] with [b_text] as its
    text, the text is not blank, and the lines under it are plain. *)
Definition well_formed_block (b : block) : bool :=
  match js_match h3_re (b_line b) with
  | Some g => str_eqb g (b_text b)
  | None => false
  end
  && truthy (trim (b_text b))
  && forallb plain_line (b_body b).

(** What may follow a section: the end of the document, or a line that
    matches [/^##\s+/]. *)
Definition ends_section (rest : list str) : bool :=
  match rest with
  | [] => true
  | l :: _ => js_test h2Next_re l
  end.

(** Some line is a top-level heading. *)
Definition has_h1 (lines : list str) : bool :=
  existsb (fun l => match js_match h1_re l with Some _ => true | None => false end)
    lines.

(** The page of the text before the first third-level heading, if it is
    not blank. *)
Definition lead_page (pageTitle : str) (lead : list str) : list Page :=
  if blank (join [nl] lead) then []
  else [mkPage ContentPage pageTitle None (trim (join [nl] lead))].

(** The page of a third-level heading. *)
Definition block_page (pageTitle : str) (b : block) : Page :=
  mkPage ContentPage pageTitle (Some (trim (b_text b)))
    (trim (join [nl] (b_body b))).

(** The element of [subPages] pushed for a third-level heading. *)
Definition block_subPage (b : block) : SubPage :=
  mkSubPage (Some (trim (b_text b))) (trim (join [nl] (block_lines b))).

(** The page loop with the fuel that [parse_lines] gives it. *)
Definition pages_from (lines : list str) : outcome (list Page) :=
  page_loop (S (length lines)) lines.

(** A document written as its lines. *)
Definition doc (lines : list string) : str := join [nl] (map lit lines).

(** The body under a third-level heading is not blank. *)
Definition has_body (b : block) : bool := negb (blank (join [nl] (b_body b))).

(** The line is a second-level heading. *)
Definition is_h2 (l : str) : bool :=
  match js_match h2_re l with Some _ => true | None => false end.

(** The line is a third-level heading. *)
Definition is_h3 (l : str) : bool :=
  match js_match h3_re l with Some _ => true | None => false end.

(** The line is a top-level heading. *)
Definition is_h1 (l : str) : bool :=
  match js_match h1_re l with Some _ => true | None => false end.

(** Nothing for [trim] to remove. *)
Definition trimmed (s : str) : Prop := trim s = s.

(** The texts of the page are trimmed. *)
Definition page_trimmed (p : Page) : Prop :=
  trimmed (title p) /\ trimmed (content p)
  /\ match subtitle p with Some s => trimmed s | None => True end.

(** The characters of a text other than the space. *)
Definition visible (s : str) : str := filter (not_char space) s.

(** A text in which the formatter finds nothing to replace: no backtick,
    asterisk, underscore, opening bracket, hash, hyphen or digit. *)
Definition is_markup (c : char) : bool :=
  is_char backtick c || is_char star c || is_char underscore c
  || is_char (ch "[") c || is_char hash c || is_char (ch "-") c
  || is_digit c.


(** [k] presses of a key. *)
Definition presses (k : str) (n : nat) : list event := repeat (Key k) n.

(** The lines after the first top-level heading. *)
Fixpoint after_h1 (lines : list str) : list str :=
  match lines with
  | [] => []
  | l :: rest => if is_h1 l then rest else after_h1 rest
  end.

(** The texts of the sub-page are trimmed. *)
Definition subPage_trimmed (sp : SubPage) : Prop :=
  trimmed (sp_content sp)
  /\ match sp_subtitle sp with Some s => trimmed s | None => True end.

(** No line is a third-level heading. *)
Definition no_h3 (lines : list str) : bool :=
  forallb (fun l => negb (is_h3 l)) lines.

(** A link as it is written: [[label](target)]. *)
Definition link_text (label target : str) : str :=
  ch "[" :: label ++ ch "]" :: ch "(" :: target ++ [ch ")"].

(** The expression has no [^]. *)
Definition no_bol (r : regex) : bool :=
  forallb (fun a => match a with Bol _ => false | _ => true end) r.


(** The horizontal tab, whitespace that is not a space. *)
Definition tab : char := 9%N.





(* ================================================================== *)
(** * Properties *)
(* ================================================================== *)

(** ** Strings *)

Lemma split_by_nonempty (p : char -> bool) (s : str) : split_by p s <> [].
Proof.
  destruct s as [|c s]; simpl; [discriminate|].
  destruct (p c); [discriminate|].
  destruct (split_by p s); discriminate.
Qed.

Lemma split_by_length (p : char -> bool) (s : str) :
  Forall (fun w => length w <= length s) (split_by p s).
Proof.
  induction s as [|c s IH]; simpl.
  - repeat constructor.
  - destruct (p c).
    + constructor; [simpl; lia|].
      eapply Forall_impl; [|exact IH]. simpl; intros; lia.
    + destruct (split_by p s) as [|w ws].
      * constructor; [simpl; lia|constructor].
      * inversion IH; subst. constructor; [simpl; lia|].
        eapply Forall_impl; [|eassumption]. simpl; intros; lia.
Qed.

Lemma split_by_no_sep (p : char -> bool) (s : str) :
  Forall (fun c => p c = false) s -> split_by p s = [s].
Proof.
  induction 1 as [|c s Hc _ IH]; simpl; [reflexivity|].
  rewrite Hc, IH. reflexivity.
Qed.

Lemma split_by_app_sep (p : char -> bool) (a b : str) (c : char) :
  p c = true -> split_by p (a ++ c :: b) = split_by p a ++ split_by p b.
Proof.
  intros Hc. induction a as [|x a IH]; simpl.
  - rewrite Hc. reflexivity.
  - destruct (p x).
    + rewrite IH. reflexivity.
    + rewrite IH. pose proof (split_by_nonempty p a) as Hne.
      destruct (split_by p a); [congruence|reflexivity].
Qed.

Lemma join_cons (sep x : str) (y : str) (rest : list str) :
  join sep (x :: y :: rest) = x ++ sep ++ join sep (y :: rest).
Proof. reflexivity. Qed.

Lemma join_split_by (p : char -> bool) (sep : char) (s : str) :
  (forall c, p c = true -> c = sep) ->
  join [sep] (split_by p s) = s.
Proof.
  intros Hp. induction s as [|c s IH]; simpl; [reflexivity|].
  destruct (p c) eqn:Hc.
  - pose proof (split_by_nonempty p s) as Hne.
    destruct (split_by p s) as [|w ws] eqn:E; [congruence|].
    rewrite <- IH. simpl. rewrite (Hp c Hc). reflexivity.
  - destruct (split_by p s) as [|w ws] eqn:E.
    + exfalso. eapply split_by_nonempty; eauto.
    + rewrite <- IH. destruct ws; reflexivity.
Qed.

Lemma join_split_on (sep : char) (s : str) :
  join [sep] (split_on sep s) = s.
Proof.
  apply join_split_by. unfold is_char. intros c H.
  apply N.eqb_eq in H. exact H.
Qed.

(** ** Tokens *)

Section Tokens.

Variable sep : char -> bool.
Hypothesis sep_space : sep space = true.

Lemma tokens_by_nil : tokens_by sep [] = [].
Proof. reflexivity. Qed.

Lemma tokens_by_app_space (a b : str) :
  tokens_by sep (a ++ space :: b) = tokens_by sep a ++ tokens_by sep b.
Proof.
  unfold tokens_by. rewrite split_by_app_sep by assumption.
  apply filter_app.
Qed.

Lemma tokens_by_join (xs : list str) :
  tokens_by sep (join [space] xs) = concat (map (tokens_by sep) xs).
Proof.
  induction xs as [|x xs IH]; [reflexivity|].
  destruct xs as [|y xs].
  - simpl. rewrite app_nil_r. reflexivity.
  - rewrite join_cons.
    change ([space] ++ join [space] (y :: xs))
      with (space :: join [space] (y :: xs)).
    rewrite tokens_by_app_space, IH. reflexivity.
Qed.

Lemma tokens_by_words (line : str) :
  tokens_by sep line = concat (map (tokens_by sep) (split_on space line)).
Proof.
  rewrite <- tokens_by_join, join_split_on. reflexivity.
Qed.

End Tokens.

(** ** Line wrapper *)

Lemma ceil_div_0 (d : nat) : ceil_div 0 d = 0.
Proof.
  unfold ceil_div. destruct d as [|d]; [reflexivity|].
  apply Nat.div_small. lia.
Qed.

Lemma ceil_div_S (n d : nat) :
  0 < d -> 0 < n -> ceil_div n d = S (ceil_div (n - d) d).
Proof.
  intros Hd Hn. unfold ceil_div.
  destruct (Nat.le_gt_cases n d) as [Hle|Hgt].
  - replace (n - d + d - 1) with (d - 1) by lia.
    rewrite (Nat.div_small (d - 1) d) by lia.
    replace (n + d - 1) with ((n - 1) + 1 * d) by lia.
    rewrite Nat.div_add by lia. rewrite Nat.div_small by lia. reflexivity.
  - replace (n + d - 1) with ((n - d + d - 1) + 1 * d) by lia.
    rewrite Nat.div_add by lia. lia.
Qed.

Lemma ceil_div_pos (n d : nat) : 0 < d -> 0 < ceil_div n d -> 0 < n.
Proof.
  intros Hd H. destruct n; [rewrite ceil_div_0 in H|]; lia.
Qed.

Lemma slice_width (w : str) (i width : nat) :
  slice i (i + width) w = firstn width (skipn i w).
Proof. unfold slice. f_equal. lia. Qed.

Lemma chunk_loop_spec (w : str) (width : nat) :
  0 < width ->
  forall fuel i,
    length w - i < fuel ->
    exists chunks,
      chunk_loop fuel w width i = Ok chunks
      /\ concat chunks = skipn i w
      /\ length chunks = ceil_div (length w - i) width
      /\ full_but_last width chunks
      /\ Forall (fits width) chunks.
Proof.
  intros Hw. induction fuel as [|fuel IH]; intros i Hfuel; [lia|].
  simpl. destruct (i <? length w) eqn:Hi.
  - apply Nat.ltb_lt in Hi.
    destruct (IH (i + width)) as (more & E & Hcat & Hlen & Hshape & Hfit);
      [lia|].
    rewrite E. simpl. eexists; split; [reflexivity|].
    assert (Hsl : length (slice i (i + width) w)
                  = Nat.min width (length w - i)).
    { rewrite slice_width, length_firstn, length_skipn. reflexivity. }
    repeat split.
    + simpl. rewrite Hcat, slice_width.
      replace (i + width) with (width + i) by lia.
      rewrite <- skipn_skipn. apply firstn_skipn.
    + simpl. rewrite Hlen, (ceil_div_S (n := length w - i)) by lia.
      do 2 f_equal. lia.
    + simpl. destruct more as [|c more'].
      * lia.
      * split; [|exact Hshape].
        assert (0 < length w - (i + width)).
        { apply ceil_div_pos with width; [exact Hw|].
          rewrite <- Hlen. simpl. lia. }
        lia.
    + constructor; [unfold fits; lia|exact Hfit].
  - apply Nat.ltb_ge in Hi. exists []. repeat split.
    + simpl. symmetry. apply skipn_all2. exact Hi.
    + replace (length w - i) with 0 by lia. rewrite ceil_div_0. reflexivity.
    + constructor.
Qed.

(** Any fuel that is enough gives the same chunks. *)
Lemma chunk_loop_fuel (w : str) (width : nat) :
  0 < width ->
  forall fuel1 fuel2 i,
    length w - i < fuel1 -> length w - i < fuel2 ->
    chunk_loop fuel1 w width i = chunk_loop fuel2 w width i.
Proof.
  intros Hw. induction fuel1 as [|fuel1 IH]; intros fuel2 i H1 H2; [lia|].
  destruct fuel2 as [|fuel2]; [lia|]. simpl.
  destruct (i <? length w) eqn:Hi; [|reflexivity].
  apply Nat.ltb_lt in Hi. rewrite (IH fuel2 (i + width)) by lia.
  reflexivity.
Qed.

Lemma flush_fits (width : nat) (result : list str) (current : str) :
  Forall (fits width) result -> length current <= width ->
  Forall (fits width) (flush result current).
Proof.
  intros Hr Hc. unfold flush. destruct current as [|c cur]; simpl; [exact Hr|].
  apply Forall_app. split; [exact Hr|].
  constructor; [|constructor]. unfold fits. simpl in *. lia.
Qed.

(** The state of the loop stays within the width, and the loop ends. *)
Lemma wrap_words_fits (fuel width : nat) :
  0 < width ->
  forall words result current,
    Forall (fun w => length w < fuel) words ->
    Forall (fits width) result ->
    length current <= width ->
    exists out,
      wrap_words fuel width words result current = Ok out
      /\ Forall (fits width) out.
Proof.
  intros Hw. induction words as [|w rest IH]; intros result current Hf Hr Hc.
  - simpl. eexists; split; [reflexivity|]. apply flush_fits; assumption.
  - inversion Hf as [|? ? Hwf Hrest]; subst. simpl.
    destruct (width <? length w) eqn:Hlong.
    + destruct (@chunk_loop_spec w width Hw fuel 0)
        as (chunks & E & _ & _ & _ & Hfit); [lia|].
      rewrite E. simpl. apply IH; [exact Hrest| |simpl; lia].
      apply Forall_app. split; [apply flush_fits; assumption|exact Hfit].
    + destruct (length current + length w + 1 <=? width) eqn:Hroom.
      * apply Nat.leb_le in Hroom. apply IH; [exact Hrest|exact Hr|].
        rewrite !length_app. destruct current; simpl in *; lia.
      * apply Nat.ltb_ge in Hlong. apply IH; [exact Hrest| |exact Hlong].
        apply flush_fits; assumption.
Qed.

(** Running the loop over a prefix of the words leads to one state, from
    which the rest of the words is processed. *)
Lemma wrap_words_prefix (fuel width : nat) :
  0 < width ->
  forall before result current,
    Forall (fun w => length w < fuel) before ->
    exists result' current',
      forall more,
        wrap_words fuel width (before ++ more) result current
        = wrap_words fuel width more result' current'.
Proof.
  intros Hw. induction before as [|w rest IH]; intros result current Hf.
  - exists result, current. reflexivity.
  - inversion Hf as [|? ? Hwf Hrest]; subst. simpl.
    destruct (width <? length w) eqn:Hlong.
    + destruct (@chunk_loop_spec w width Hw fuel 0)
        as (chunks & E & _); [lia|].
      rewrite E. simpl. apply IH. exact Hrest.
    + destruct (length current + length w + 1 <=? width);
        apply IH; exact Hrest.
Qed.

(** Any fuel that is enough for every word gives the same lines. *)
Lemma wrap_words_fuel (fuel1 fuel2 width : nat) :
  0 < width ->
  forall words result current,
    Forall (fun w => length w < fuel1) words ->
    Forall (fun w => length w < fuel2) words ->
    wrap_words fuel1 width words result current
    = wrap_words fuel2 width words result current.
Proof.
  intros Hw. induction words as [|w rest IH]; intros result current H1 H2;
    [reflexivity|].
  inversion H1 as [|? ? Hw1 Hr1]; inversion H2 as [|? ? Hw2 Hr2]; subst.
  simpl. rewrite (@chunk_loop_fuel w width Hw fuel1 fuel2 0) by lia.
  destruct (width <? length w).
  - destruct (chunk_loop fuel2 w width 0); simpl; try reflexivity.
    apply IH; assumption.
  - destruct (length current + length w + 1 <=? width);
      apply IH; assumption.
Qed.

Lemma words_fuel (line : str) :
  Forall (fun w => length w < S (length line)) (split_on space line).
Proof.
  eapply Forall_impl; [|apply split_by_length]. simpl. intros; lia.
Qed.

(** Without a hard split the tokens of the output are those of the words. *)
Lemma wrap_words_tokens (sep : char -> bool) (fuel width : nat) :
  sep space = true ->
  forall words result current,
    Forall (fun w => length w <= width) words ->
    exists out,
      wrap_words fuel width words result current = Ok out
      /\ concat (map (tokens_by sep) out)
         = concat (map (tokens_by sep) result) ++ tokens_by sep current
           ++ concat (map (tokens_by sep) words).
Proof.
  intros Hsep.
  assert (Hflush : forall result current,
             concat (map (tokens_by sep) (flush result current))
             = concat (map (tokens_by sep) result) ++ tokens_by sep current).
  { intros result current. unfold flush.
    destruct current as [|c cur]; simpl truthy; cbv iota.
    - rewrite tokens_by_nil, app_nil_r. reflexivity.
    - rewrite map_app, concat_app. simpl. rewrite app_nil_r. reflexivity. }
  induction words as [|w rest IH]; intros result current Hshort.
  - simpl. eexists; split; [reflexivity|].
    rewrite Hflush, app_nil_r. reflexivity.
  - inversion Hshort as [|? ? Hw Hrest]; subst. simpl.
    apply Nat.ltb_ge in Hw. rewrite Hw.
    destruct (length current + length w + 1 <=? width).
    + destruct (IH result
                  (current ++ (if truthy current then [space] else []) ++ w)
                  Hrest) as (out & E & Htok).
      exists out. split; [exact E|]. rewrite Htok.
      assert (Happ : tokens_by sep
                       (current ++ (if truthy current then [space] else [])
                          ++ w)
                     = tokens_by sep current ++ tokens_by sep w).
      { destruct current as [|c cur]; simpl truthy; cbv iota.
        - reflexivity.
        - change ([space] ++ w) with (space :: w).
          apply tokens_by_app_space. exact Hsep. }
      rewrite Happ. simpl. rewrite <- !app_assoc. reflexivity.
    + destruct (IH (flush result current) w Hrest) as (out & E & Htok).
      exists out. split; [exact E|]. rewrite Htok, Hflush. simpl.
      rewrite <- !app_assoc. reflexivity.
Qed.

(** C10. For every line and every width of at least 1, no line returned
    by [wrapLine] is the empty string. *)
Theorem wrapLine_lines_nonempty (line : str) (width : nat) :
  1 <= width ->
  exists out,
    wrapLine line width = Ok out /\ Forall (fun l => l <> []) out.
Proof.
  intros Hw.
  destruct (@wrap_words_fits (S (length line)) width Hw
              (split_on space line) [] []) as (out & E & Hfit);
    [apply words_fuel|constructor|simpl; lia|].
  exists out. split; [exact E|].
  eapply Forall_impl; [|exact Hfit]. unfold fits.
  intros l Hl ->. simpl in Hl. lia.
Qed.

Lemma wrapLine_lines_nonempty_witness :
  1 <= 3
  /\ exists out,
       wrapLine (lit "a  long-winded   line"%string) 3 = Ok out
       /\ Forall (fun l => l <> []) out.
Proof.
  split; [lia|].
  apply (@wrapLine_lines_nonempty (lit "a  long-winded   line"%string) 3).
  lia.
Defined.

(** C5, as stated, fails: a token longer than the width is cut, and the
    pieces are separate tokens of the re-joined text. *)
Lemma wrapLine_tokens_not_kept :
  ~ (forall line width,
        0 < width ->
        exists out,
          wrapLine line width = Ok out
          /\ tokens (join [space] out) = tokens line).
Proof.
  intros H. destruct (H (lit "abcdef"%string) 3) as (out & E & T); [lia|].
  vm_compute in E. injection E as <-. vm_compute in T. discriminate T.
Qed.

(** C5, amended. For every line none of whose words (the pieces between
    single spaces) is longer than the width, and every width greater than
    0, joining the lines returned by [wrapLine] with single spaces gives a
    text with the tokens of the line, in their order; this holds for
    tokens separated by whitespace and for tokens separated by spaces. *)
Theorem wrapLine_tokens_kept (line : str) (width : nat) :
  0 < width ->
  Forall (fun w => length w <= width) (split_on space line) ->
  exists out,
    wrapLine line width = Ok out
    /\ tokens (join [space] out) = tokens line
    /\ tokens_by (is_char space) (join [space] out)
       = tokens_by (is_char space) line.
Proof.
  intros _ Hshort.
  destruct (@wrap_words_tokens is_space (S (length line)) width
              eq_refl (split_on space line) [] [] Hshort)
    as (out & E & Htok).
  destruct (@wrap_words_tokens (is_char space) (S (length line)) width
              eq_refl (split_on space line) [] [] Hshort)
    as (out' & E' & Htok').
  rewrite E in E'. injection E' as <-.
  exists out. split; [exact E|]. unfold tokens. split.
  - rewrite tokens_by_join, Htok by reflexivity. simpl.
    symmetry. apply tokens_by_words. reflexivity.
  - rewrite tokens_by_join, Htok' by reflexivity. simpl.
    symmetry. apply tokens_by_words. reflexivity.
Qed.

Lemma wrapLine_tokens_kept_witness :
  0 < 6
  /\ Forall (fun w => length w <= 6)
       (split_on space (lit "the  quick brown fox"%string))
  /\ exists out,
       wrapLine (lit "the  quick brown fox"%string) 6 = Ok out
       /\ tokens (join [space] out) = tokens (lit "the  quick brown fox"%string)
       /\ tokens_by (is_char space) (join [space] out)
          = tokens_by (is_char space) (lit "the  quick brown fox"%string).
Proof.
  assert (Hshort : Forall (fun w => length w <= 6)
                     (split_on space (lit "the  quick brown fox"%string))).
  { vm_compute. repeat constructor. }
  split; [lia|]. split; [exact Hshort|].
  apply (@wrapLine_tokens_kept (lit "the  quick brown fox"%string) 6);
    [lia|exact Hshort].
Defined.

(** ** Navigation *)

Lemma str_eqb_eq (a b : str) : str_eqb a b = true <-> a = b.
Proof.
  revert b. induction a as [|x a IH]; intros [|y b]; simpl;
    try (split; [discriminate|discriminate]); [tauto|].
  rewrite andb_true_iff, N.eqb_eq, IH. split.
  - intros [-> ->]. reflexivity.
  - intros E. injection E as -> ->. split; reflexivity.
Qed.

Lemma is_next_iff (k : str) :
  is_next k = true <-> In k [key_n; key_space; key_right; key_j; key_enter].
Proof.
  unfold is_next. rewrite !orb_true_iff, !str_eqb_eq. simpl.
  intuition congruence.
Qed.

Lemma is_previous_iff (k : str) :
  is_previous k = true <-> In k [key_p; key_b; key_left; key_k].
Proof.
  unfold is_previous. rewrite !orb_true_iff, !str_eqb_eq. simpl.
  intuition congruence.
Qed.

Lemma is_quit_iff (k : str) :
  is_quit k = true <-> In k [key_q; key_ctrl_c].
Proof.
  unfold is_quit. rewrite !orb_true_iff, !str_eqb_eq. simpl.
  intuition congruence.
Qed.

(** No key belongs to two of the three sets. *)
Lemma is_next_only (k : str) :
  is_next k = true -> is_quit k = false /\ is_previous k = false.
Proof.
  rewrite is_next_iff. simpl.
  intros [<-|[<-|[<-|[<-|[<-|[]]]]]]; split; reflexivity.
Qed.

Lemma is_previous_only (k : str) :
  is_previous k = true -> is_quit k = false /\ is_next k = false.
Proof.
  rewrite is_previous_iff. simpl.
  intros [<-|[<-|[<-|[<-|[]]]]]; split; reflexivity.
Qed.

Local Open Scope Z_scope.

Lemma on_data_next (pageCount : Z) (s : session) (k : str) :
  is_next k = true ->
  on_data pageCount k s
  = (mkSession (Z.min (idx s + 1) (pageCount - 1)) false,
     [Rendered (Z.min (idx s + 1) (pageCount - 1))]).
Proof.
  intros H. destruct (is_next_only k H) as [Hq Hp].
  unfold on_data. rewrite Hq, H, Hp. reflexivity.
Qed.

Lemma on_data_previous (pageCount : Z) (s : session) (k : str) :
  is_previous k = true ->
  on_data pageCount k s
  = (mkSession (Z.max (idx s - 1) 0) false, [Rendered (Z.max (idx s - 1) 0)]).
Proof.
  intros H. destruct (is_previous_only k H) as [Hq Hn].
  unfold on_data. rewrite Hq, H, Hn. reflexivity.
Qed.

Lemma on_data_quit (pageCount : Z) (s : session) (k : str) :
  is_quit k = true ->
  on_data pageCount k s = (mkSession (idx s) true, [ClearedAndExited]).
Proof. intros H. unfold on_data. rewrite H. reflexivity. Qed.

Lemma on_data_other (pageCount : Z) (s : session) (k : str) :
  is_quit k = false -> is_next k = false -> is_previous k = false ->
  on_data pageCount k s = (mkSession (idx s) false, []).
Proof. intros Hq Hn Hp. unfold on_data. rewrite Hq, Hn, Hp. reflexivity. Qed.

(** One event keeps the index within the pages. *)
Lemma step_in_range (pageCount : Z) (s : session) (e : event) :
  1 <= pageCount ->
  0 <= idx s <= pageCount - 1 ->
  0 <= idx (fst (step pageCount s e)) <= pageCount - 1.
Proof.
  intros Hn Hs. unfold step. destruct (exited s); [exact Hs|].
  destruct e as [k|]; [|exact Hs].
  destruct (is_quit k) eqn:Hq; [rewrite on_data_quit by exact Hq; exact Hs|].
  destruct (is_next k) eqn:Hnext.
  { rewrite on_data_next by exact Hnext. simpl. lia. }
  destruct (is_previous k) eqn:Hprev.
  { rewrite on_data_previous by exact Hprev. simpl. lia. }
  rewrite on_data_other by assumption. exact Hs.
Qed.

Lemma run_in_range (pageCount : Z) (es : list event) :
  1 <= pageCount ->
  forall s,
    0 <= idx s <= pageCount - 1 ->
    0 <= idx (fst (run pageCount s es)) <= pageCount - 1.
Proof.
  intros Hn. induction es as [|e es IH]; intros s Hs; [exact Hs|].
  simpl. pose proof (@step_in_range pageCount s e Hn Hs) as H1.
  destruct (step pageCount s e) as [s1 out1]. simpl in H1.
  specialize (IH s1 H1). destruct (run pageCount s1 es) as [s2 out2].
  exact IH.
Qed.

(** C7. For every page count of at least 1 and every sequence of events,
    the index after the events is within [[0, pageCount - 1]]; a retreat
    at index 0 leaves it at 0, an advance at index [pageCount - 1] leaves
    it there, and a resize leaves the index as it is (and renders the
    current page). *)
Theorem navigation_stays_in_range (pageCount : Z) (es : list event) :
  1 <= pageCount ->
  0 <= idx (fst (run pageCount initial es)) <= pageCount - 1
  /\ (forall k,
         is_previous k = true ->
         idx (fst (on_data pageCount k (mkSession 0 false))) = 0)
  /\ (forall k,
         is_next k = true ->
         idx (fst (on_data pageCount k (mkSession (pageCount - 1) false)))
         = pageCount - 1)
  /\ (forall s,
         exited s = false ->
         step pageCount s Resize = (s, [Rendered (idx s)])).
Proof.
  intros Hn. repeat split.
  - apply (run_in_range es Hn initial). simpl. lia.
  - apply (run_in_range es Hn initial). simpl. lia.
  - intros k Hk. rewrite on_data_previous by exact Hk. reflexivity.
  - intros k Hk. rewrite on_data_next by exact Hk. simpl. lia.
  - intros s Hs. unfold step. rewrite Hs. reflexivity.
Qed.

Lemma navigation_stays_in_range_witness :
  1 <= 3
  /\ 0 <= idx (fst (run 3 initial
                      [Key key_n; Key key_j; Resize; Key key_enter;
                       Key key_p; Key (lit "x"%string); Key key_left;
                       Key key_k; Key key_b])) <= 3 - 1.
Proof.
  split; [lia|].
  apply (@navigation_stays_in_range 3
           [Key key_n; Key key_j; Resize; Key key_enter; Key key_p;
            Key (lit "x"%string); Key key_left; Key key_k; Key key_b]).
  lia.
Defined.

(** C9. The keys that advance are exactly n, space, right-arrow, j and
    enter; the keys that retreat are exactly p, b, left-arrow and k; the
    keys that quit are exactly q and the interrupt byte. An advance key
    sets the index to [min(idx + 1, pageCount - 1)] and renders once, a
    retreat key sets it to [max(idx - 1, 0)] and renders once, a quit key
    clears the screen and exits, and every other key leaves the index as
    it is and writes nothing. *)
Theorem key_mapping (pageCount : Z) (s : session) (k : str) :
  (is_next k = true
   <-> In k [key_n; key_space; key_right; key_j; key_enter])
  /\ (is_previous k = true <-> In k [key_p; key_b; key_left; key_k])
  /\ (is_quit k = true <-> In k [key_q; key_ctrl_c])
  /\ (is_next k = true ->
      on_data pageCount k s
      = (mkSession (Z.min (idx s + 1) (pageCount - 1)) false,
         [Rendered (Z.min (idx s + 1) (pageCount - 1))]))
  /\ (is_previous k = true ->
      on_data pageCount k s
      = (mkSession (Z.max (idx s - 1) 0) false,
         [Rendered (Z.max (idx s - 1) 0)]))
  /\ (is_quit k = true ->
      on_data pageCount k s = (mkSession (idx s) true, [ClearedAndExited]))
  /\ (is_next k = false -> is_previous k = false -> is_quit k = false ->
      on_data pageCount k s = (mkSession (idx s) false, [])).
Proof.
  split; [apply is_next_iff|]. split; [apply is_previous_iff|].
  split; [apply is_quit_iff|]. split; [apply on_data_next|].
  split; [apply on_data_previous|]. split; [apply on_data_quit|].
  intros Hn Hp Hq. apply on_data_other; assumption.
Qed.

Local Close Scope Z_scope.

(** ** Page renderer *)

Lemma wrapLine_ends (line : str) (width : nat) :
  0 < width -> exists out, wrapLine line width = Ok out.
Proof.
  intros Hw.
  destruct (@wrap_words_fits (S (length line)) width Hw
              (split_on space line) [] []) as (out & E & _);
    [apply words_fuel|constructor|simpl; lia|].
  exists out. exact E.
Qed.

Lemma flatMapM_ends {A B : Type} (f : A -> outcome (list B)) (xs : list A) :
  (forall x, exists ys, f x = Ok ys) -> exists zs, flatMapM f xs = Ok zs.
Proof.
  intros Hf. induction xs as [|x xs [zs IH]]; simpl.
  - eexists; reflexivity.
  - destruct (Hf x) as [ys E]. rewrite E, IH. simpl. eexists; reflexivity.
Qed.

Local Open Scope Z_scope.

Lemma top_padding_nonneg (contentHeight availableRows : Z) :
  0 <= top_padding contentHeight availableRows.
Proof. unfold top_padding. lia. Qed.

Lemma bottom_padding_nonneg (contentHeight availableRows : Z) :
  0 <= bottom_padding contentHeight availableRows.
Proof. unfold bottom_padding. lia. Qed.

Lemma js_repeat_nonneg (s : str) (n : Z) :
  0 <= n -> js_repeat s n = Ok (repeat_str s (Z.to_nat n)).
Proof.
  intros Hn. unfold js_repeat.
  destruct (n <? 0) eqn:E; [apply Z.ltb_lt in E; lia|reflexivity].
Qed.

Lemma padContentBelow_ends (contentLines : list str) (availableRows : Z) :
  exists out, padContentBelow contentLines availableRows = Ok out.
Proof.
  unfold padContentBelow.
  rewrite js_repeat_nonneg by apply top_padding_nonneg.
  rewrite js_repeat_nonneg by apply bottom_padding_nonneg.
  simpl. eexists; reflexivity.
Qed.

Lemma content_lines_ends (page : Page) (contentWidth : Z) :
  0 < contentWidth -> exists ls, content_lines page contentWidth = Ok ls.
Proof.
  intros Hw. unfold content_lines.
  destruct (truthy (content page)); [|eexists; reflexivity].
  apply flatMapM_ends. intros cl. apply wrapLine_ends. lia.
Qed.

Lemma addLeftPadding_ends (text : str) (cols : Z) :
  exists out, addLeftPadding text cols = Ok out.
Proof.
  unfold addLeftPadding.
  destruct (cols <? MIN_COLUMNS_FOR_PADDING); eexists; reflexivity.
Qed.

(** C6. For every page and every terminal size of at least one row and
    one column, [formatPage] ends and returns a string: no [repeat] is
    given a negative count and no wrap loop runs on. Whatever the number
    of available rows, negative ones included, the top and the bottom
    padding computed by [padContentBelow] are at least 0 and
    [padContentBelow] returns a string. *)
Theorem formatPage_never_throws (page : Page) (size : Size) :
  1 <= rows size ->
  1 <= columns size ->
  (exists out, formatPage page size = Ok out)
  /\ (forall contentHeight availableRows,
         0 <= top_padding contentHeight availableRows
         /\ 0 <= bottom_padding contentHeight availableRows)
  /\ (forall contentLines availableRows,
         exists out, padContentBelow contentLines availableRows = Ok out).
Proof.
  intros _ Hcols. split; [|split].
  - unfold formatPage.
    set (contentWidth :=
           columns size
           - (if MIN_COLUMNS_FOR_PADDING <=? columns size
              then LEFT_PADDING_SPACES else 0)).
    assert (Hwidth : 0 < contentWidth).
    { unfold contentWidth, MIN_COLUMNS_FOR_PADDING, LEFT_PADDING_SPACES.
      destruct (100 <=? columns size) eqn:E; [apply Z.leb_le in E|]; lia. }
    destruct (content_lines_ends page Hwidth) as [ls Els].
    destruct (type page).
    + rewrite Els. cbn [bind].
      destruct (padContentBelow_ends ls (rows size - 1 - 1)) as [body Eb].
      rewrite Eb. cbn [bind]. apply addLeftPadding_ends.
    + rewrite Els. cbn [bind].
      match goal with
      | |- context [padContentBelow ls ?a] =>
          destruct (padContentBelow_ends ls a) as [body Eb]; rewrite Eb
      end.
      cbn [bind]. apply addLeftPadding_ends.
  - intros. split; [apply top_padding_nonneg|apply bottom_padding_nonneg].
  - apply padContentBelow_ends.
Qed.

Lemma formatPage_never_throws_witness :
  1 <= 1 /\ 1 <= 1
  /\ exists out,
       formatPage
         (mkPage ContentPage (lit "Plan"%string) (Some (lit "Goals"%string))
            (lit "ship **it** now"%string))
         (mkSize 1 1) = Ok out.
Proof.
  split; [lia|]. split; [lia|].
  apply (@formatPage_never_throws
           (mkPage ContentPage (lit "Plan"%string)
              (Some (lit "Goals"%string)) (lit "ship **it** now"%string))
           (mkSize 1 1)); simpl; lia.
Defined.

Local Close Scope Z_scope.

(** ** Inline style formatter *)

Lemma replace_all_from_no_first (c : char) (r : regex)
    (f : str -> option str -> str) (s : str) :
  Forall (fun d => d <> c) s ->
  forall prev, replace_all_from (Lit c :: r) f 0 prev s = s.
Proof.
  induction 1 as [|d s Hd _ IH]; intros prev; [reflexivity|].
  cbn [replace_all_from rx]. apply N.eqb_neq in Hd. rewrite Hd, IH.
  reflexivity.
Qed.

(** A replacement that needs a character the text does not have changes
    nothing. *)
Lemma replace_all_no_first (c : char) (r : regex)
    (f : str -> option str -> str) (s : str) :
  Forall (fun d => d <> c) s -> replace_all (Lit c :: r) f s = s.
Proof. intros H. apply replace_all_from_no_first. exact H. Qed.

(** Deleting matches brings in no new character. *)
Lemma replace_all_from_delete (P : char -> Prop) (r : regex) (s : str) :
  Forall P s ->
  forall skip prev, Forall P (replace_all_from r (rep_const []) skip prev s).
Proof.
  induction 1 as [|d s Hd Hs IH]; intros skip prev.
  - simpl. destruct skip; [|constructor].
    destruct (rx r prev []) as [[n g]|]; constructor.
  - cbn [replace_all_from]. destruct skip as [|k]; [|apply IH].
    destruct (rx r prev (d :: s)) as [[[|k] g]|]; unfold rep_const; simpl.
    + constructor; [exact Hd|apply IH].
    + apply IH.
    + constructor; [exact Hd|apply IH].
Qed.

Lemma no_delimiter_split (s : str) :
  forallb (fun c => negb (is_delimiter c)) s = true ->
  Forall (fun d => d <> star) s
  /\ Forall (fun d => d <> underscore) s
  /\ Forall (fun d => d <> backtick) s.
Proof.
  rewrite forallb_forall. intros H. repeat split; apply Forall_forall;
    intros d Hin E; specialize (H d Hin); subst d; discriminate H.
Qed.

(** On a text without asterisk, underscore or backtick only the
    replacements that wrap nothing act. *)
Lemma formatContent_no_delimiter (text : str) :
  forallb (fun c => negb (is_delimiter c)) text = true ->
  formatContent text = plain_passes text.
Proof.
  intros H. destruct (no_delimiter_split text H) as (Hs & Hu & Hb).
  unfold formatContent, plain_passes.
  unfold fence_pass at 1. unfold fence_re.
  rewrite (replace_all_no_first _ _ Hb).
  set (t := heading_marker_pass text).
  assert (Ht : forall c, Forall (fun d => d <> c) text ->
                         Forall (fun d => d <> c) t).
  { intros c Hc. unfold t, heading_marker_pass, replace_all.
    apply replace_all_from_delete. exact Hc. }
  unfold bold_star_pass, bold_star_re.
  rewrite (replace_all_no_first _ _ (Ht _ Hs)).
  unfold bold_underscore_pass, bold_underscore_re.
  rewrite (replace_all_no_first _ _ (Ht _ Hu)).
  unfold italic_star_pass, italic_star_re.
  rewrite (replace_all_no_first _ _ (Ht _ Hs)).
  unfold italic_underscore_pass, italic_underscore_re.
  rewrite (replace_all_no_first _ _ (Ht _ Hu)).
  unfold code_pass, code_re.
  rewrite (replace_all_no_first _ _ (Ht _ Hb)).
  reflexivity.
Qed.

(** C8, as stated, fails: of four asterisks on each side the first pass
    consumes three, and the second pass wraps the text in italic once
    more. *)
Lemma formatContent_wraps_again :
  ~ (forall text,
        spans (formatContent (formatContent text))
        = spans (formatContent text)).
Proof.
  intros H. specialize (H (lit "****a****"%string)).
  vm_compute in H. discriminate H.
Qed.

(** Even when no delimiter is left, the second pass can change the text
    inside a span: a heading marker that the first pass left at the start
    of a line is removed by the second. *)
Example second_pass_changes_span_text :
  forallb (fun c => negb (is_delimiter c))
    (formatContent (doc ["**x"; "# # a**"]%string)) = true
  /\ spans (formatContent (doc ["**x"; "# # a**"]%string))
     = [(Bold, doc ["x"; "# a"]%string)]
  /\ spans (formatContent (formatContent (doc ["**x"; "# # a**"]%string)))
     = [(Bold, doc ["x"; "a"]%string)].
Proof. repeat split; vm_compute; reflexivity. Qed.

(** C8, amended. When the first pass has consumed every delimiter, that
    is when the formatted text has no asterisk, underscore or backtick,
    the second pass wraps nothing: the fence, bold, italic and code
    replacements leave the formatted text as it is, and formatting it
    again only applies the heading-marker, link and list-marker
    replacements. *)
Theorem formatContent_second_pass (text : str) :
  forallb (fun c => negb (is_delimiter c)) (formatContent text) = true ->
  formatContent (formatContent text) = plain_passes (formatContent text)
  /\ fence_pass (formatContent text) = formatContent text
  /\ bold_star_pass (formatContent text) = formatContent text
  /\ bold_underscore_pass (formatContent text) = formatContent text
  /\ italic_star_pass (formatContent text) = formatContent text
  /\ italic_underscore_pass (formatContent text) = formatContent text
  /\ code_pass (formatContent text) = formatContent text.
Proof.
  intros H. split; [apply formatContent_no_delimiter; exact H|].
  destruct (no_delimiter_split _ H) as (Hs & Hu & Hb).
  repeat split; apply replace_all_no_first; assumption.
Qed.

Lemma formatContent_second_pass_witness :
  forallb (fun c => negb (is_delimiter c))
    (formatContent (lit "**bold** and *italic* and `code`"%string)) = true
  /\ formatContent (formatContent (lit "**bold** and *italic* and `code`"%string))
     = plain_passes (formatContent (lit "**bold** and *italic* and `code`"%string)).
Proof.
  assert (H : forallb (fun c => negb (is_delimiter c))
                (formatContent (lit "**bold** and *italic* and `code`"%string))
              = true) by (vm_compute; reflexivity).
  split; [exact H|].
  exact (proj1 (@formatContent_second_pass
                  (lit "**bold** and *italic* and `code`"%string) H)).
Defined.

(** ** Trimming *)

Lemma drop_while_all (p : char -> bool) (s : str) :
  forallb p s = true -> drop_while p s = [].
Proof.
  induction s as [|c s IH]; simpl; [reflexivity|].
  destruct (p c); simpl; [exact IH|discriminate].
Qed.

Lemma drop_while_app_all (p : char -> bool) (a b : str) :
  forallb p a = true -> drop_while p (a ++ b) = drop_while p b.
Proof.
  induction a as [|c a IH]; simpl; [reflexivity|].
  destruct (p c); simpl; [exact IH|discriminate].
Qed.

Lemma drop_while_app_some (p : char -> bool) (a b : str) :
  forallb p a = false -> drop_while p (a ++ b) = drop_while p a ++ b.
Proof.
  induction a as [|c a IH]; simpl; [discriminate|].
  destruct (p c); simpl; [exact IH|reflexivity].
Qed.

Lemma drop_while_some (p : char -> bool) (s : str) :
  forallb p s = false ->
  exists c u, drop_while p s = c :: u /\ p c = false.
Proof.
  induction s as [|c s IH]; simpl; [discriminate|].
  destruct (p c) eqn:E; simpl; [exact IH|].
  intros _. exists c, s. split; [reflexivity|exact E].
Qed.

Lemma drop_while_split (p : char -> bool) (s : str) :
  exists a, s = a ++ drop_while p s /\ forallb p a = true.
Proof.
  induction s as [|c s (a & E & Ha)]; simpl.
  - exists []. split; reflexivity.
  - destruct (p c) eqn:Hc.
    + exists (c :: a). simpl. rewrite Hc, Ha, <- E. split; reflexivity.
    + exists []. split; reflexivity.
Qed.

Lemma drop_while_idem (p : char -> bool) (s : str) :
  drop_while p (drop_while p s) = drop_while p s.
Proof.
  induction s as [|c s IH]; simpl; [reflexivity|].
  destruct (p c) eqn:E; [exact IH|]. simpl. rewrite E. reflexivity.
Qed.

Lemma forallb_rev (p : char -> bool) (s : str) :
  forallb p (rev s) = forallb p s.
Proof.
  induction s as [|c s IH]; simpl; [reflexivity|].
  rewrite forallb_app, IH. simpl. rewrite andb_true_r. apply andb_comm.
Qed.

Lemma trimEnd_app_blank (a b : str) :
  blank b = true -> trimEnd (a ++ b) = trimEnd a.
Proof.
  intros Hb. unfold trimEnd. rewrite rev_app_distr, drop_while_app_all;
    [reflexivity|]. rewrite forallb_rev. exact Hb.
Qed.

Lemma trimEnd_app_nonblank (a b : str) :
  blank b = false -> trimEnd (a ++ b) = a ++ trimEnd b.
Proof.
  intros Hb. unfold trimEnd. rewrite rev_app_distr, drop_while_app_some.
  - rewrite rev_app_distr, rev_involutive. reflexivity.
  - rewrite forallb_rev. exact Hb.
Qed.

Lemma trimEnd_blank (s : str) : blank s = true -> trimEnd s = [].
Proof.
  intros Hb. unfold trimEnd. rewrite drop_while_all; [reflexivity|].
  rewrite forallb_rev. exact Hb.
Qed.

Lemma trimEnd_prefix (s : str) : exists b, s = trimEnd s ++ b.
Proof.
  unfold trimEnd. destruct (drop_while_split is_space (rev s)) as (a & E & _).
  exists (rev a). rewrite <- rev_app_distr, <- E. symmetry.
  apply rev_involutive.
Qed.

Lemma trimEnd_idem (s : str) : trimEnd (trimEnd s) = trimEnd s.
Proof.
  unfold trimEnd. rewrite rev_involutive, drop_while_idem. reflexivity.
Qed.

(** A text that starts with a visible character keeps it. *)
Lemma trimEnd_head (c : char) (s : str) :
  is_space c = false -> exists v, trimEnd (c :: s) = c :: v.
Proof.
  intros Hc. destruct (blank s) eqn:Hs.
  - exists []. change (c :: s) with ([c] ++ s).
    rewrite trimEnd_app_blank by exact Hs.
    unfold trimEnd. simpl. rewrite Hc. reflexivity.
  - exists (trimEnd s). change (c :: s) with ([c] ++ s).
    rewrite trimEnd_app_nonblank by exact Hs. reflexivity.
Qed.

Lemma trim_head (c : char) (s : str) :
  is_space c = false -> trim (c :: s) = trimEnd (c :: s).
Proof. intros Hc. unfold trim, trimStart. simpl. rewrite Hc. reflexivity. Qed.

Lemma trim_blank (s : str) : blank s = true -> trim s = [].
Proof.
  intros Hb. unfold trim, trimStart. rewrite drop_while_all by exact Hb.
  reflexivity.
Qed.

Lemma truthy_trim (s : str) : truthy (trim s) = negb (blank s).
Proof.
  destruct (blank s) eqn:Hb.
  - rewrite trim_blank by exact Hb. reflexivity.
  - unfold trim, trimStart.
    destruct (drop_while_some is_space s Hb) as (c & u & E & Hc).
    rewrite E. destruct (@trimEnd_head c u Hc) as [v Ev]. rewrite Ev.
    reflexivity.
Qed.

Lemma trimStart_trimEnd (s : str) :
  trimStart (trimEnd s) = trimEnd (trimStart s).
Proof.
  destruct (blank s) eqn:Hb.
  - unfold trimStart at 2. rewrite drop_while_all by exact Hb.
    rewrite trimEnd_blank by exact Hb. reflexivity.
  - unfold trimStart.
    destruct (drop_while_some is_space s Hb) as (c & u & E & Hc).
    destruct (drop_while_split is_space s) as (a & Es & Ha).
    rewrite E in *. rewrite Es at 1.
    assert (Hcu : blank (c :: u) = false) by (simpl; rewrite Hc; reflexivity).
    rewrite trimEnd_app_nonblank by exact Hcu.
    rewrite drop_while_app_all by exact Ha.
    destruct (@trimEnd_head c u Hc) as [v Ev]. rewrite Ev. simpl.
    rewrite Hc. reflexivity.
Qed.

Lemma trim_trimEnd (s : str) : trim (trimEnd s) = trim s.
Proof.
  unfold trim. rewrite trimStart_trimEnd, trimEnd_idem. reflexivity.
Qed.

(** ** Regular expressions *)

Lemma try_down_first {A : Type} (f : nat -> option A) (lo n : nat) (r : A) :
  lo <= n -> f n = Some r -> try_down f lo n = Some r.
Proof.
  intros Hle Hf. apply Nat.ltb_ge in Hle.
  destruct n; simpl; rewrite Hle, Hf; reflexivity.
Qed.

Lemma try_down_lo {A : Type} (f : nat -> option A) (lo n : nat) (r : A) :
  try_down f lo n = Some r -> lo <= n.
Proof.
  destruct n; simpl; destruct (_ <? lo) eqn:E; try discriminate;
    intros _; apply Nat.ltb_ge in E; exact E.
Qed.

Lemma try_up_cnt {A : Type} (f : nat -> option A) (k cnt : nat) (r : A) :
  try_up f k cnt = Some r -> 0 < cnt.
Proof. destruct cnt; simpl; [discriminate|lia]. Qed.

Lemma rx_lit (c : char) (r : regex) (prev : option char) (s : str) :
  rx (Lit c :: r) prev (c :: s)
  = match rx r (Some c) s with
    | Some (m, g) => Some (S m, g)
    | None => None
    end.
Proof. simpl. rewrite N.eqb_refl. reflexivity. Qed.

Lemma rx_lit_inv (c : char) (r : regex) (prev : option char) (s : str)
    (n : nat) (g : option str) :
  rx (Lit c :: r) prev s = Some (n, g) ->
  exists s' m, s = c :: s' /\ n = S m /\ rx r (Some c) s' = Some (m, g).
Proof.
  simpl. destruct s as [|d s']; [discriminate|].
  destruct (d =? c)%N eqn:E; [|discriminate].
  apply N.eqb_eq in E. subst d.
  destruct (rx r (Some c) s') as [[m g']|] eqn:Ey; [|discriminate].
  intros H. injection H as <- <-. exists s', m.
  split; [reflexivity|]. split; [reflexivity|exact Ey].
Qed.

(** A greedy quantifier takes as many characters as it can when the rest
    of the expression matches after them. *)
Lemma rx_greedy (p : char -> bool) (lo : nat) (hi : option nat) (cap : bool)
    (r : regex) (prev : option char) (s : str) (n m : nat) (g : option str) :
  n = bounded (run_len p s) hi ->
  lo <= n ->
  rx r (prev_after prev (firstn n s)) (skipn n s) = Some (m, g) ->
  rx (Cls p lo hi true cap :: r) prev s
  = Some (n + m, if cap then Some (firstn n s) else g).
Proof.
  intros Hn Hlo Hr. cbn [rx]. rewrite <- Hn.
  apply try_down_first; [exact Hlo|]. rewrite Hr. reflexivity.
Qed.

Lemma rx_cls_lo (p : char -> bool) (lo : nat) (hi : option nat)
    (greedy cap : bool) (r : regex) (prev : option char) (s : str)
    (x : nat * option str) :
  rx (Cls p lo hi greedy cap :: r) prev s = Some x ->
  lo <= bounded (run_len p s) hi.
Proof.
  cbn [rx]. destruct greedy; intros H.
  - apply try_down_lo in H. exact H.
  - apply try_up_cnt in H. lia.
Qed.

Lemma run_len_app (p : char -> bool) (run rest : str) :
  forallb p run = true ->
  match rest with [] => true | c :: _ => negb (p c) end = true ->
  run_len p (run ++ rest) = length run.
Proof.
  intros Hrun Hrest. induction run as [|c run IH]; simpl in *.
  - destruct rest as [|c rest]; [reflexivity|].
    simpl. apply negb_true_iff in Hrest. rewrite Hrest. reflexivity.
  - apply andb_true_iff in Hrun. destruct Hrun as [Hc Hrun].
    rewrite Hc, IH by exact Hrun. reflexivity.
Qed.

Lemma run_len_pos (p : char -> bool) (s : str) :
  1 <= run_len p s -> exists c s', s = c :: s' /\ p c = true.
Proof.
  destruct s as [|c s']; simpl; [lia|].
  destruct (p c) eqn:E; [|lia]. intros _. exists c, s'. split; auto.
Qed.

(** [X+] or [(X+)] on a run of [X] followed by something else. *)
Lemma rx_plus_run (p : char -> bool) (cap : bool) (r : regex)
    (prev : option char) (run rest : str) (m : nat) (g : option str) :
  forallb p run = true ->
  match rest with [] => true | c :: _ => negb (p c) end = true ->
  1 <= length run ->
  rx r (prev_after prev run) rest = Some (m, g) ->
  rx (Cls p 1 None true cap :: r) prev (run ++ rest)
  = Some (length run + m, if cap then Some run else g).
Proof.
  intros Hrun Hrest Hlen Hr.
  rewrite (@rx_greedy p 1 None cap r prev (run ++ rest) (length run) m g).
  - rewrite firstn_app, firstn_all, Nat.sub_diag. simpl.
    rewrite app_nil_r. reflexivity.
  - simpl. symmetry. apply run_len_app; assumption.
  - exact Hlen.
  - rewrite firstn_app, firstn_all, Nat.sub_diag, skipn_app, skipn_all,
      Nat.sub_diag. simpl. rewrite app_nil_r. exact Hr.
Qed.

Lemma rx_search_anchored (r : regex) (s : str) :
  forall c, rx_search (Bol false :: r) (Some c) s = None.
Proof.
  induction s as [|d s IH]; intros c; simpl; [reflexivity|].
  rewrite IH. reflexivity.
Qed.

(** An expression that starts with [^] (without the [m] flag) matches at
    the start of the text or not at all. *)
Lemma rx_search_bol (r : regex) (s : str) :
  rx_search (Bol false :: r) None s
  = match rx r None s with
    | Some (n, g) => Some (0, n, g)
    | None => None
    end.
Proof.
  destruct s as [|d s]; simpl.
  - destruct (rx r None []) as [[n g]|]; reflexivity.
  - destruct (rx r None (d :: s)) as [[n g]|]; [reflexivity|].
    rewrite rx_search_anchored. reflexivity.
Qed.

Lemma js_match_bol (r : regex) (s : str) :
  js_match (Bol false :: r) s
  = match rx r None s with
    | Some (_, g) => Some (match g with Some t => t | None => [] end)
    | None => None
    end.
Proof.
  unfold js_match. rewrite rx_search_bol.
  destruct (rx r None s) as [[n g]|]; reflexivity.
Qed.

Lemma js_test_bol (r : regex) (s : str) :
  js_test (Bol false :: r) s
  = match rx r None s with Some _ => true | None => false end.
Proof.
  unfold js_test. rewrite rx_search_bol.
  destruct (rx r None s) as [[n g]|]; reflexivity.
Qed.

Lemma replace_first_bol (r : regex) (rep s : str) :
  replace_first (Bol false :: r) rep s
  = match rx r None s with
    | Some (n, _) => rep ++ skipn n s
    | None => s
    end.
Proof.
  unfold replace_first. rewrite rx_search_bol.
  destruct (rx r None s) as [[n g]|]; reflexivity.
Qed.

(** ** Heading lines *)

Lemma space_not_hash (w : char) : is_space w = true -> is_char hash w = false.
Proof.
  intros Hw. unfold is_char. destruct (w =? hash)%N eqn:E; [|reflexivity].
  apply N.eqb_eq in E. subst w. discriminate Hw.
Qed.

(** A second-level heading starts with two hashes and a whitespace. *)
Lemma h2_shape (l t : str) :
  js_match h2_re l = Some t ->
  exists w s, l = hash :: hash :: w :: s /\ is_space w = true.
Proof.
  unfold h2_re. rewrite js_match_bol.
  destruct (rx _ None l) as [[n g]|] eqn:E; [|discriminate]. intros _.
  apply rx_lit_inv in E. destruct E as (s1 & m1 & -> & _ & E).
  apply rx_lit_inv in E. destruct E as (s2 & m2 & -> & _ & E).
  unfold plus in E. apply rx_cls_lo in E. simpl in E.
  apply run_len_pos in E. destruct E as (w & s & -> & Hw).
  exists w, s. split; [reflexivity|exact Hw].
Qed.

(** It ends the section before it, *)
Lemma h2_is_h2Next (l t : str) :
  js_match h2_re l = Some t -> js_test h2Next_re l = true.
Proof.
  intros H. destruct (@h2_shape l t H) as (w & s & -> & Hw).
  unfold h2Next_re. rewrite js_test_bol, !rx_lit. unfold plus.
  rewrite (@rx_greedy is_space 1 None false [] (Some hash) (w :: s)
             (run_len is_space (w :: s)) 0 None);
    [reflexivity|reflexivity|simpl; rewrite Hw; lia|reflexivity].
Qed.

(** and the content of the title page. *)
Lemma h2_is_heading (l t : str) :
  js_match h2_re l = Some t -> js_test heading_re l = true.
Proof.
  intros H. destruct (@h2_shape l t H) as (w & s & -> & Hw).
  unfold heading_re. rewrite js_test_bol. unfold between, one.
  assert (Hrun : run_len (is_char hash) (hash :: hash :: w :: s) = 2).
  { simpl. rewrite (space_not_hash _ Hw). reflexivity. }
  rewrite (@rx_greedy (is_char hash) 1 (Some 3) false
             [Cls is_space 1 (Some 1) true false] None
             (hash :: hash :: w :: s) 2 1 None);
    [reflexivity|rewrite Hrun; reflexivity|lia|].
  cbn [firstn skipn prev_after].
  rewrite (@rx_greedy is_space 1 (Some 1) false [] (Some hash) (w :: s)
             1 0 None);
    [reflexivity|simpl; rewrite Hw; lia|lia|reflexivity].
Qed.

Lemma dot_not_nl (text : str) :
  forallb is_dot text = true -> forallb (not_char nl) text = true.
Proof.
  intros H. rewrite forallb_forall in *. intros c Hc. specialize (H c Hc).
  unfold is_dot, is_line_terminator, not_char, nl in *.
  destruct (c =? 10)%N; [discriminate H|reflexivity].
Qed.

Section ThirdLevelHeading.

Variables ws text : str.
Variable c : char.
Variable t : str.
Hypothesis ws_nonempty : truthy ws = true.
Hypothesis ws_space : forallb is_space ws = true.
Hypothesis text_head : text = c :: t.
Hypothesis head_visible : is_space c = false.

Lemma ws_length : 1 <= length ws.
Proof. destruct ws; [discriminate ws_nonempty|simpl; lia]. Qed.

Lemma text_stops_space :
  match text with [] => true | d :: _ => negb (is_space d) end = true.
Proof. rewrite text_head, head_visible. reflexivity. Qed.

(** The heading is recognised and its text is captured. *)
Lemma h3_line_match :
  forallb is_dot text = true ->
  js_match h3_re (h3_line ws text) = Some text.
Proof.
  intros Hdot. unfold h3_re, h3_line. rewrite js_match_bol, !rx_lit.
  unfold plus, group_plus.
  rewrite (@rx_plus_run is_space false _ (Some hash) ws text
             (length text) (Some text));
    [reflexivity|exact ws_space|exact text_stops_space|exact ws_length|].
  rewrite <- (app_nil_r text) at 1.
  rewrite (@rx_plus_run is_dot true [Eol] _ text [] 0 None);
    [rewrite Nat.add_0_r; reflexivity|exact Hdot|reflexivity| |reflexivity].
  rewrite text_head. simpl. lia.
Qed.

(** It does not end the section. *)
Lemma h3_line_not_h2Next (tail : str) :
  js_test h2Next_re (h3_line ws text ++ tail) = false.
Proof.
  unfold h2Next_re, h3_line. cbn [app]. rewrite js_test_bol, !rx_lit.
  reflexivity.
Qed.

(** Removing the heading line from a text that is only the heading. *)
Lemma strip_heading_only :
  forallb (not_char nl) text = true ->
  replace_first h3_line_re [] (h3_line ws text) = [].
Proof.
  intros Hnl. unfold h3_line_re, h3_line.
  rewrite replace_first_bol, !rx_lit. unfold plus, opt.
  rewrite (@rx_plus_run is_space false _ (Some hash) ws text
             (length text) None);
    [|exact ws_space|exact text_stops_space|exact ws_length|].
  - cbn [app skipn]. rewrite skipn_app, skipn_all2 by lia.
    replace (length ws + length text - length ws) with (length text) by lia.
    rewrite skipn_all. reflexivity.
  - rewrite <- (app_nil_r text) at 1.
    rewrite (@rx_plus_run (not_char nl) false _ _ text [] 0 None);
      [rewrite Nat.add_0_r; reflexivity|exact Hnl|reflexivity|
       |reflexivity].
    rewrite text_head. simpl. lia.
Qed.

(** Removing the heading line from a text that goes on after it. *)
Lemma strip_heading_line (rest : str) :
  forallb (not_char nl) text = true ->
  replace_first h3_line_re [] (h3_line ws text ++ nl :: rest) = rest.
Proof.
  intros Hnl. unfold h3_line_re, h3_line. cbn [app].
  rewrite replace_first_bol, !rx_lit. unfold plus, opt.
  rewrite <- app_assoc.
  rewrite (@rx_plus_run is_space false _ (Some hash) ws
             (text ++ nl :: rest) (length text + 1) None);
    [|exact ws_space|rewrite text_head; simpl; rewrite head_visible;
      reflexivity|exact ws_length|].
  - cbn [app skipn]. rewrite skipn_app, skipn_all2 by lia.
    replace (length ws + (length text + 1) - length ws)
      with (length (text ++ [nl])) by (rewrite length_app; simpl; lia).
    change (nl :: rest) with ([nl] ++ rest). rewrite app_assoc.
    rewrite skipn_app, skipn_all, Nat.sub_diag. reflexivity.
  - rewrite (@rx_plus_run (not_char nl) false _ _ text (nl :: rest)
               1 None);
      [reflexivity|exact Hnl|reflexivity| |].
    + rewrite text_head. simpl. lia.
    + rewrite (@rx_greedy (is_char nl) 0 (Some 1) false [] _ (nl :: rest)
                 1 0 None);
        [reflexivity|simpl; lia|lia|reflexivity].
Qed.

End ThirdLevelHeading.

(** ** Recognised headings *)

Lemma try_down_inv {A : Type} (f : nat -> option A) (lo : nat) (r : A) :
  forall n,
    try_down f lo n = Some r ->
    exists k,
      lo <= k <= n /\ f k = Some r
      /\ (forall j, k < j -> j <= n -> f j = None).
Proof.
  induction n as [|n IH]; simpl.
  - destruct (0 <? lo) eqn:E; [discriminate|]. apply Nat.ltb_ge in E.
    destruct (f 0) as [r'|] eqn:Ef; [|discriminate].
    intros H. injection H as <-. exists 0.
    split; [lia|]. split; [exact Ef|]. intros j H1 H2. lia.
  - destruct (S n <? lo) eqn:E; [discriminate|]. apply Nat.ltb_ge in E.
    destruct (f (S n)) as [r'|] eqn:Ef.
    + intros H. injection H as <-. exists (S n).
      split; [lia|]. split; [exact Ef|]. intros j H1 H2. lia.
    + intros H. destruct (IH H) as (k & Hk & Hfk & Hnone).
      exists k. split; [lia|]. split; [exact Hfk|].
      intros j H1 H2. destruct (Nat.eq_dec j (S n)) as [->|Hj];
        [exact Ef|apply Hnone; lia].
Qed.

Lemma run_len_le (p : char -> bool) (s : str) : run_len p s <= length s.
Proof.
  induction s as [|c s IH]; simpl; [lia|]. destruct (p c); simpl; lia.
Qed.

Lemma run_len_firstn (p : char -> bool) (s : str) :
  forall k, k <= run_len p s -> forallb p (firstn k s) = true.
Proof.
  induction s as [|c s IH]; intros k Hk.
  - rewrite firstn_nil. reflexivity.
  - destruct k as [|k]; [reflexivity|]. simpl in Hk |- *.
    destruct (p c); [|lia]. simpl. apply IH. lia.
Qed.

Lemma run_len_stop (p : char -> bool) (s : str) :
  match skipn (run_len p s) s with
  | [] => true
  | c :: _ => negb (p c)
  end = true.
Proof.
  induction s as [|c s IH]; simpl; [reflexivity|].
  destruct (p c) eqn:E; simpl; [exact IH|rewrite E; reflexivity].
Qed.

Lemma forallb_skipn (p : char -> bool) (s : str) (k : nat) :
  forallb p s = true -> forallb p (skipn k s) = true.
Proof.
  intros H. rewrite <- (firstn_skipn k s), forallb_app in H.
  apply andb_true_iff in H. exact (proj2 H).
Qed.

Lemma rx_greedy_inv (p : char -> bool) (lo : nat) (hi : option nat)
    (cap : bool) (r : regex) (prev : option char) (s : str) (n : nat)
    (g : option str) :
  rx (Cls p lo hi true cap :: r) prev s = Some (n, g) ->
  exists k m g',
    lo <= k <= bounded (run_len p s) hi
    /\ rx r (prev_after prev (firstn k s)) (skipn k s) = Some (m, g')
    /\ n = k + m
    /\ g = (if cap then Some (firstn k s) else g')
    /\ (forall j,
           k < j -> j <= bounded (run_len p s) hi ->
           rx r (prev_after prev (firstn j s)) (skipn j s) = None).
Proof.
  cbn [rx]. intros H. apply try_down_inv in H.
  destruct H as (k & Hk & Ek & Hmax).
  destruct (rx r (prev_after prev (firstn k s)) (skipn k s))
    as [[m g']|] eqn:Er; [|discriminate Ek].
  injection Ek as <- <-. exists k, m, g'.
  split; [exact Hk|]. split; [exact Er|]. split; [reflexivity|].
  split; [reflexivity|]. intros j H1 H2. specialize (Hmax j H1 H2).
  destruct (rx r (prev_after prev (firstn j s)) (skipn j s)) as [[m' g'']|];
    [discriminate Hmax|reflexivity].
Qed.

Lemma rx_eol_inv (prev : option char) (s : str) (n : nat) (g : option str) :
  rx [Eol] prev s = Some (n, g) -> s = [] /\ n = 0 /\ g = None.
Proof.
  simpl. destruct s; [|discriminate]. intros H. injection H as <- <-.
  repeat split.
Qed.

(** A line recognised as a third-level heading whose captured text is not
    blank is the marker, a run of whitespace, and the captured text, which
    starts with a visible character. *)
Lemma h3_match_shape (l g : str) :
  js_match h3_re l = Some g ->
  truthy (trim g) = true ->
  exists ws c t,
    l = h3_line ws g /\ g = c :: t
    /\ truthy ws = true /\ forallb is_space ws = true
    /\ is_space c = false /\ forallb is_dot g = true.
Proof.
  unfold h3_re. rewrite js_match_bol.
  destruct (rx _ None l) as [[n0 g0]|] eqn:E; [|discriminate].
  intros Hg Hvisible. injection Hg as Hg.
  apply rx_lit_inv in E. destruct E as (s1 & m1 & -> & _ & E).
  apply rx_lit_inv in E. destruct E as (s2 & m2 & -> & _ & E).
  apply rx_lit_inv in E. destruct E as (s3 & m3 & -> & _ & E).
  unfold plus, group_plus in E. apply rx_greedy_inv in E.
  destruct E as (k & m & g' & Hk & E & _ & -> & Hmax).
  cbn [bounded] in Hk, Hmax. set (n := run_len is_space s3) in *.
  (* the capture group took what was left after [k] whitespace *)
  apply rx_greedy_inv in E.
  destruct E as (k2 & m' & g'' & Hk2 & E & _ & -> & _).
  cbn [bounded] in Hk2. apply rx_eol_inv in E. destruct E as (Eend & _ & _).
  assert (Hlen2 : k2 = length (skipn k s3)).
  { pose proof (run_len_le is_dot (skipn k s3)) as Hle.
    pose proof (f_equal (@length char) Eend) as Hl.
    rewrite length_skipn in Hl. simpl in Hl. lia. }
  assert (Hcap : firstn k2 (skipn k s3) = skipn k s3).
  { rewrite Hlen2. apply firstn_all. }
  assert (Hdot : forallb is_dot (skipn k s3) = true).
  { rewrite <- Hcap. apply run_len_firstn. lia. }
  rewrite Hcap in Hg. subst g.
  rewrite truthy_trim in Hvisible. apply negb_true_iff in Hvisible.
  (* the whitespace run was taken whole *)
  assert (Hkn : k = n).
  { destruct (Nat.eq_dec k n) as [Heq|Hne]; [exact Heq|exfalso].
    assert (Hlt : k < n) by lia.
    pose proof (Hmax n Hlt (Nat.le_refl n)) as Hnone.
    assert (Hsuffix : skipn n s3 = skipn (n - k) (skipn k s3)).
    { rewrite skipn_skipn. f_equal. lia. }
    assert (Hne' : skipn n s3 <> []).
    { intros Hnil.
      assert (Hsp : forallb is_space (skipn k s3) = true).
      { rewrite <- (firstn_skipn (n - k) (skipn k s3)), <- Hsuffix, Hnil,
          app_nil_r, firstn_skipn_comm.
        apply forallb_skipn. apply run_len_firstn. fold n. lia. }
      unfold blank in Hvisible. congruence. }
    rewrite <- (app_nil_r (skipn n s3)) in Hnone.
    rewrite (@rx_plus_run is_dot true [Eol] _ (skipn n s3) [] 0 None)
      in Hnone; [discriminate Hnone| |reflexivity| |reflexivity].
    - rewrite Hsuffix. apply forallb_skipn. exact Hdot.
    - destruct (skipn n s3); [congruence|simpl; lia]. }
  subst k. pose proof (run_len_stop is_space s3) as Hstop. fold n in Hstop.
  destruct (skipn n s3) as [|c t] eqn:Etext; [simpl in Hlen2; lia|].
  exists (firstn n s3), c, t. repeat split.
  - unfold h3_line. rewrite <- Etext, firstn_skipn. reflexivity.
  - pose proof (run_len_le is_space s3) as Hle. fold n in Hle.
    destruct s3 as [|x s3]; [simpl in Hle; lia|].
    destruct n; [lia|reflexivity].
  - apply run_len_firstn. fold n. lia.
  - apply negb_true_iff in Hstop. exact Hstop.
  - exact Hdot.
Qed.

(** ** Sub-pages *)

Lemma join_head (x : str) (rest : list str) :
  join [nl] (x :: rest)
  = x ++ match rest with [] => [] | _ :: _ => nl :: join [nl] rest end.
Proof. destruct rest; simpl; [rewrite app_nil_r|]; reflexivity. Qed.

Lemma is_space_hash : is_space hash = false.
Proof. reflexivity. Qed.

Section BlockContent.

Variable b : block.
Hypothesis b_ok : well_formed_block b = true.

Lemma block_facts :
  js_match h3_re (b_line b) = Some (b_text b)
  /\ truthy (trim (b_text b)) = true
  /\ forallb plain_line (b_body b) = true.
Proof.
  unfold well_formed_block in b_ok. rewrite !andb_true_iff in b_ok.
  destruct b_ok as [[H1 H2] H3]. repeat split; try assumption.
  destruct (js_match h3_re (b_line b)) as [g|]; [|discriminate H1].
  apply str_eqb_eq in H1. rewrite H1. reflexivity.
Qed.

Lemma block_shape :
  exists ws c t,
    b_line b = h3_line ws (b_text b) /\ b_text b = c :: t
    /\ truthy ws = true /\ forallb is_space ws = true
    /\ is_space c = false /\ forallb is_dot (b_text b) = true.
Proof.
  destruct block_facts as (H1 & H2 & _). exact (h3_match_shape _ H1 H2).
Qed.

Lemma block_heading_not_h2Next : js_test h2Next_re (b_line b) = false.
Proof.
  destruct block_shape as (ws & c & t & -> & _).
  rewrite <- (app_nil_r (h3_line _ _)). apply h3_line_not_h2Next.
Qed.

Lemma block_trimmed_truthy :
  truthy (trim (join [nl] (block_lines b))) = true.
Proof.
  destruct block_shape as (ws & c & t & Hl & _).
  unfold block_lines. rewrite join_head, truthy_trim, Hl. reflexivity.
Qed.

(** The content of the page: the lines under the heading, trimmed. *)
Lemma block_content :
  trim (replace_first h3_line_re [] (trim (join [nl] (block_lines b))))
  = trim (join [nl] (b_body b)).
Proof.
  destruct block_shape as (ws & c & t & Hl & Ht & H1 & H2 & Hc & H4).
  assert (Htrim : forall tail,
             trim (h3_line ws (b_text b) ++ tail)
             = trimEnd (h3_line ws (b_text b) ++ tail)).
  { intros tail. unfold h3_line. cbn [app]. apply trim_head.
    apply is_space_hash. }
  assert (Hsplit : forall text,
             h3_line ws text = (hash :: hash :: hash :: ws) ++ text)
    by reflexivity.
  assert (Htext : blank (b_text b) = false).
  { rewrite Ht. simpl. rewrite Hc. reflexivity. }
  unfold block_lines. rewrite join_head, Hl, Htrim.
  destruct (blank (join [nl] (b_body b))) eqn:Hbody.
  - rewrite trimEnd_app_blank.
    2:{ destruct (b_body b); [reflexivity|]. simpl. exact Hbody. }
    rewrite Hsplit, trimEnd_app_nonblank by exact Htext.
    destruct (trimEnd_prefix (b_text b)) as [tail Etail].
    assert (Hnl : forallb (not_char nl) (trimEnd (b_text b)) = true).
    { apply dot_not_nl in H4. rewrite Etail, forallb_app in H4.
      apply andb_true_iff in H4. exact (proj1 H4). }
    rewrite Ht in Hnl |- *. destruct (@trimEnd_head c t Hc) as [v Ev].
    rewrite Ev in Hnl |- *. rewrite <- Hsplit.
    rewrite (@strip_heading_only _ _ c v H1 H2 eq_refl Hc Hnl).
    rewrite (@trim_blank _ Hbody). reflexivity.
  - destruct (b_body b) as [|l ls] eqn:Eb; [discriminate Hbody|].
    rewrite trimEnd_app_nonblank by (simpl; exact Hbody).
    change (nl :: join [nl] (l :: ls)) with ([nl] ++ join [nl] (l :: ls)).
    rewrite trimEnd_app_nonblank by exact Hbody. cbn [app].
    rewrite (@strip_heading_line _ _ c t H1 H2 Ht Hc _ (dot_not_nl _ H4)).
    apply trim_trimEnd.
Qed.

End BlockContent.

(** ** The section loop *)

Lemma plain_line_facts (l : str) :
  plain_line l = true ->
  js_test h2Next_re l = false /\ js_match h3_re l = None.
Proof.
  unfold plain_line. rewrite andb_true_iff, negb_true_iff.
  intros [H1 H2]. split; [exact H1|].
  destruct (js_match h3_re l); [discriminate H2|reflexivity].
Qed.

Lemma push_pending_block (b : block) (subPages : list SubPage) :
  well_formed_block b = true ->
  push_pending (block_lines b) subPages = subPages ++ [block_subPage b].
Proof.
  intros Hb. unfold push_pending.
  change (match block_lines b with
          | [] => subPages
          | firstLine :: _ =>
              let trimmed := trim (join [nl] (block_lines b)) in
              if truthy trimmed
              then subPages ++
                   [mkSubPage (option_map trim (js_match h3_re firstLine))
                      trimmed]
              else subPages
          end = subPages ++ [block_subPage b]).
  unfold block_lines at 1. cbv zeta.
  rewrite (@block_trimmed_truthy b Hb), (proj1 (@block_facts b Hb)).
  reflexivity.
Qed.

Lemma push_pending_lead (lead : list str) :
  forallb plain_line lead = true ->
  push_pending lead []
  = if blank (join [nl] lead) then []
    else [mkSubPage None (trim (join [nl] lead))].
Proof.
  intros H. destruct lead as [|l ls]; [reflexivity|].
  unfold push_pending. cbv zeta. rewrite truthy_trim.
  simpl in H. apply andb_true_iff in H. destruct H as [Hl _].
  destruct (plain_line_facts _ Hl) as [_ Hh3]. rewrite Hh3.
  destruct (blank (join [nl] (l :: ls))); reflexivity.
Qed.

Lemma section_loop_plain (ls : list str) :
  forallb plain_line ls = true ->
  forall tail currentContent subPages,
    section_loop (ls ++ tail) currentContent subPages
    = section_loop tail (currentContent ++ ls) subPages.
Proof.
  induction ls as [|l ls IH]; intros H tail cur subs.
  - rewrite app_nil_r. reflexivity.
  - simpl in H. apply andb_true_iff in H. destruct H as [Hl Hls].
    destruct (plain_line_facts _ Hl) as [Hn Hh3].
    cbn [app section_loop]. rewrite Hn, Hh3, (IH Hls), <- app_assoc.
    reflexivity.
Qed.

Lemma finish_section_end (tail currentContent : list str)
    (subPages : list SubPage) :
  ends_section tail = true ->
  finish_section (section_loop tail currentContent subPages)
  = (push_pending currentContent subPages, tail).
Proof.
  intros H. destruct tail as [|l tail]; [reflexivity|].
  simpl in H. cbn [section_loop]. rewrite H. reflexivity.
Qed.

(** The blocks of a section are pushed one by one, after what was
    pending when the first heading was met. *)
Lemma finish_section_blocks (blocks : list block) :
  forallb well_formed_block blocks = true ->
  forall tail currentContent subPages,
    ends_section tail = true ->
    finish_section
      (section_loop (concat (map block_lines blocks) ++ tail)
         currentContent subPages)
    = (push_pending currentContent subPages ++ map block_subPage blocks,
       tail).
Proof.
  induction blocks as [|b blocks IH]; intros H tail cur subs Hend.
  - simpl. rewrite app_nil_r. apply finish_section_end. exact Hend.
  - simpl in H. apply andb_true_iff in H. destruct H as [Hb Hbs].
    destruct (@block_facts _ Hb) as (Hmatch & _ & Hbody).
    cbn [map concat]. unfold block_lines at 1. cbn [app section_loop].
    rewrite (@block_heading_not_h2Next b Hb), Hmatch.
    rewrite <- app_assoc, (section_loop_plain _ Hbody).
    rewrite (IH Hbs _ _ _ Hend).
    change ([b_line b] ++ b_body b) with (block_lines b).
    rewrite (@push_pending_block b _ Hb), <- app_assoc. reflexivity.
Qed.

(** A line that matches [/^##\s+/] ends the section in the same way as
    the end of the document does. *)
Lemma finish_section_app (l : str) (B : list str) :
  js_test h2Next_re l = true ->
  forall X currentContent subPages,
    finish_section (section_loop (X ++ l :: B) currentContent subPages)
    = (fst (finish_section (section_loop X currentContent subPages)),
       snd (finish_section (section_loop X currentContent subPages))
         ++ l :: B).
Proof.
  intros Hl. induction X as [|x X IH]; intros cur subs.
  - cbn [app section_loop]. rewrite Hl. reflexivity.
  - cbn [app section_loop]. destruct (js_test h2Next_re x); [reflexivity|].
    destruct (js_match h3_re x); apply IH.
Qed.

Lemma finish_section_rest_length (X : list str) :
  forall currentContent subPages,
    length (snd (finish_section (section_loop X currentContent subPages)))
    <= length X.
Proof.
  induction X as [|x X IH]; intros cur subs; [simpl; lia|].
  cbn [section_loop]. destruct (js_test h2Next_re x); [simpl; lia|].
  destruct (js_match h3_re x); simpl;
    match goal with |- context [section_loop X ?c ?s] =>
      specialize (IH c s) end; simpl in IH; lia.
Qed.

(** ** The page loop *)

Lemma page_loop_fuel (fuel1 : nat) :
  forall fuel2 lines,
    length lines < fuel1 -> length lines < fuel2 ->
    page_loop fuel1 lines = page_loop fuel2 lines.
Proof.
  induction fuel1 as [|fuel1 IH]; intros fuel2 lines H1 H2; [lia|].
  destruct fuel2 as [|fuel2]; [lia|].
  destruct lines as [|line rest]; [reflexivity|]. simpl in H1, H2.
  cbn [page_loop]. destruct (js_match h2_re line).
  - pose proof (finish_section_rest_length rest [] []) as Hlen.
    destruct (finish_section (section_loop rest [] [])) as [subs rest'].
    simpl in Hlen. rewrite (IH fuel2 rest') by lia. reflexivity.
  - apply IH; lia.
Qed.

Lemma page_loop_S (fuel : nat) (line : str) (rest : list str) :
  page_loop (S fuel) (line :: rest)
  = match js_match h2_re line with
    | Some h2 =>
        let (subPages, rest') := finish_section (section_loop rest [] []) in
        more <- page_loop fuel rest' ;;
        Ok (section_pages (trim h2) subPages ++ more)
    | None => page_loop fuel rest
    end.
Proof. reflexivity. Qed.

Lemma pages_from_nil : pages_from [] = Ok [].
Proof. reflexivity. Qed.

Lemma pages_from_cons (line : str) (rest : list str) :
  pages_from (line :: rest)
  = match js_match h2_re line with
    | Some h2 =>
        let (subPages, rest') := finish_section (section_loop rest [] []) in
        more <- pages_from rest' ;;
        Ok (section_pages (trim h2) subPages ++ more)
    | None => pages_from rest
    end.
Proof.
  unfold pages_from. rewrite page_loop_S. destruct (js_match h2_re line).
  - pose proof (finish_section_rest_length rest [] []) as Hlen.
    destruct (finish_section (section_loop rest [] [])) as [subs rest'].
    simpl in Hlen.
    rewrite (@page_loop_fuel (length (line :: rest)) (S (length rest')) rest')
      by (simpl; lia).
    reflexivity.
  - apply page_loop_fuel; simpl; lia.
Qed.

(** The page loop ends. *)
Lemma pages_from_ends (lines : list str) :
  exists pages, pages_from lines = Ok pages.
Proof.
  remember (length lines) as n eqn:Hn.
  assert (Hle : length lines <= n) by lia. clear Hn. revert lines Hle.
  induction n as [|n IH]; intros lines Hle.
  - destruct lines; [|simpl in Hle; lia]. exists []. reflexivity.
  - destruct lines as [|line rest]; [exists []; reflexivity|].
    simpl in Hle. rewrite pages_from_cons. destruct (js_match h2_re line).
    + pose proof (finish_section_rest_length rest [] []) as Hlen.
      destruct (finish_section (section_loop rest [] [])) as [subs rest'].
      simpl in Hlen. destruct (IH rest') as [more E]; [lia|].
      rewrite E. simpl. eexists; reflexivity.
    + apply IH. lia.
Qed.

(** The pages of a document are those found before a second-level
    heading followed by those found from it on. *)
Lemma pages_from_app (l : str) (B : list str) :
  js_test h2Next_re l = true ->
  forall A,
    pages_from (A ++ l :: B)
    = (a <- pages_from A ;; b <- pages_from (l :: B) ;; Ok (a ++ b)).
Proof.
  intros Hl A. remember (length A) as n eqn:Hn.
  assert (Hle : length A <= n) by lia. clear Hn. revert A Hle.
  induction n as [|n IH]; intros A Hle.
  - destruct A; [|simpl in Hle; lia]. rewrite pages_from_nil. simpl.
    destruct (pages_from (l :: B)); reflexivity.
  - destruct A as [|line A].
    { rewrite pages_from_nil. simpl.
      destruct (pages_from (l :: B)); reflexivity. }
    simpl in Hle. cbn [app]. rewrite !(pages_from_cons line).
    destruct (js_match h2_re line) as [h2|]; [|apply IH; lia].
    rewrite (@finish_section_app l B Hl).
    pose proof (finish_section_rest_length A [] []) as Hlen.
    destruct (finish_section (section_loop A [] [])) as [subs rest'].
    simpl in Hlen. cbn [fst snd]. rewrite (IH rest') by lia.
    destruct (pages_from rest'); simpl; try reflexivity.
    destruct (pages_from (l :: B)); simpl; try reflexivity.
    rewrite app_assoc. reflexivity.
Qed.

(** ** The title loop *)

Lemma title_content_app (x : str) (B : list str) :
  js_test heading_re x = true ->
  forall A,
    title_content (A ++ x :: B)
    = (fst (title_content A), snd (title_content A) ++ x :: B).
Proof.
  intros Hx. induction A as [|a A IH]; cbn [app title_content].
  - rewrite Hx. reflexivity.
  - destruct (js_test heading_re a); [reflexivity|].
    rewrite IH. destruct (title_content A). reflexivity.
Qed.

Lemma title_loop_app (x : str) (B : list str) :
  js_test heading_re x = true ->
  forall A,
    has_h1 A = true ->
    title_loop (A ++ x :: B)
    = (fst (title_loop A), snd (title_loop A) ++ x :: B).
Proof.
  intros Hx. induction A as [|a A IH]; intros H; [discriminate H|].
  cbn [app title_loop]. unfold has_h1 in H. simpl in H.
  destruct (js_match h1_re a).
  - rewrite (@title_content_app x B Hx). destruct (title_content A).
    reflexivity.
  - simpl in H. apply IH. exact H.
Qed.

(** Without a top-level heading the title loop reads every line. *)
Lemma title_loop_no_h1 (lines : list str) :
  has_h1 lines = false -> title_loop lines = ([], []).
Proof.
  unfold has_h1. induction lines as [|l lines IH]; intros H; [reflexivity|].
  simpl in H. cbn [title_loop]. destruct (js_match h1_re l).
  - discriminate H.
  - apply IH. exact H.
Qed.

Lemma parse_lines_app (A : list str) (l h2 : str) (B : list str) :
  has_h1 A = true ->
  js_match h2_re l = Some h2 ->
  parse_lines (A ++ l :: B)
  = (a <- parse_lines A ;; b <- pages_from (l :: B) ;; Ok (a ++ b)).
Proof.
  intros HA Hl. unfold parse_lines.
  rewrite (@title_loop_app l B (@h2_is_heading l h2 Hl) A HA).
  destruct (title_loop A) as [pg rest]. cbn [fst snd].
  change (page_loop (S (length (rest ++ l :: B))) (rest ++ l :: B))
    with (pages_from (rest ++ l :: B)).
  change (page_loop (S (length rest)) rest) with (pages_from rest).
  rewrite (@pages_from_app l B (@h2_is_h2Next l h2 Hl)).
  destruct (pages_from rest); simpl; try reflexivity.
  destruct (pages_from (l :: B)); simpl; try reflexivity.
  rewrite app_assoc. reflexivity.
Qed.

Lemma parse_lines_ends (lines : list str) :
  exists pages, parse_lines lines = Ok pages.
Proof.
  unfold parse_lines. destruct (title_loop lines) as [pg rest].
  destruct (pages_from_ends rest) as [more E]. unfold pages_from in E.
  rewrite E. simpl. eexists; reflexivity.
Qed.

(** ** Pages of a section *)

Lemma section_pages_cons (pageTitle : str) (sp : SubPage)
    (subPages : list SubPage) :
  section_pages pageTitle (sp :: subPages)
  = map (page_of_subPage pageTitle) (sp :: subPages).
Proof. reflexivity. Qed.

(** A section always has a page, and its pages carry its title. *)
Lemma section_pages_shape (pageTitle : str) (subPages : list SubPage) :
  exists p ps,
    section_pages pageTitle subPages = p :: ps
    /\ Forall (fun q => type q = ContentPage /\ title q = pageTitle)
         (p :: ps).
Proof.
  destruct subPages as [|sp subPages].
  - eexists _, []. split; [reflexivity|]. repeat constructor.
  - rewrite section_pages_cons. cbn [map]. eexists _, _.
    split; [reflexivity|]. constructor; [split; reflexivity|].
    apply Forall_forall. intros q Hq. apply in_map_iff in Hq.
    destruct Hq as (x & <- & _). split; reflexivity.
Qed.

Lemma page_of_block (pageTitle : str) (b : block) :
  well_formed_block b = true ->
  page_of_subPage pageTitle (block_subPage b) = block_page pageTitle b.
Proof.
  intros Hb. unfold page_of_subPage, block_subPage, block_page.
  cbn [sp_subtitle sp_content truthy_opt].
  rewrite (proj1 (proj2 (@block_facts b Hb))), (@block_content b Hb).
  reflexivity.
Qed.

Lemma section_pages_blocks (pageTitle : str) (lead : list str)
    (blocks : list block) :
  forallb plain_line lead = true ->
  forallb well_formed_block blocks = true ->
  blocks <> [] ->
  section_pages pageTitle (push_pending lead [] ++ map block_subPage blocks)
  = lead_page pageTitle lead ++ map (block_page pageTitle) blocks.
Proof.
  intros Hlead Hblocks Hne.
  assert (Hmap : map (page_of_subPage pageTitle) (map block_subPage blocks)
                 = map (block_page pageTitle) blocks).
  { rewrite map_map. apply map_ext_in. intros b Hin.
    apply page_of_block. rewrite forallb_forall in Hblocks.
    apply Hblocks. exact Hin. }
  rewrite (@push_pending_lead lead Hlead). unfold lead_page.
  destruct (blank (join [nl] lead)).
  - destruct blocks as [|b blocks]; [congruence|].
    cbn [app]. rewrite <- Hmap. reflexivity.
  - cbn [app]. rewrite section_pages_cons. cbn [map]. rewrite Hmap.
    reflexivity.
Qed.

(** ** Parser *)

(** C1 (the code does otherwise). When no line of the document is a
    top-level heading, [parseMarkdown] returns no page at all, whatever
    second-level headings the document has: the title loop leaves its
    index at the end of the lines and the page loop starts there. *)
Theorem parseMarkdown_without_h1 (md : str) :
  has_h1 (split_on nl md) = false -> parseMarkdown md = Ok [].
Proof.
  intros H. unfold parseMarkdown, parse_lines.
  rewrite (@title_loop_no_h1 _ H). reflexivity.
Qed.

Lemma parseMarkdown_without_h1_witness :
  has_h1 (split_on nl (doc ["## A"; "body"]%string)) = false
  /\ js_match h2_re (lit "## A"%string) = Some (lit "A"%string)
  /\ parseMarkdown (doc ["## A"; "body"]%string) = Ok [].
Proof.
  split; [reflexivity|]. split; [reflexivity|].
  apply (@parseMarkdown_without_h1 (doc ["## A"; "body"]%string)).
  reflexivity.
Defined.

(** C2, as stated, fails: a third-level heading with nothing under it
    still gets its page, with its subtitle and an empty content. *)
Lemma empty_subsection_has_page :
  ~ (forall md pre h2l h2 lead blocks rest,
        split_on nl md
        = pre ++ h2l :: (lead ++ concat (map block_lines blocks)) ++ rest ->
        has_h1 pre = true ->
        js_match h2_re h2l = Some h2 ->
        forallb plain_line lead = true ->
        forallb well_formed_block blocks = true ->
        blocks <> [] ->
        ends_section rest = true ->
        exists before after,
          parse_lines pre = Ok before
          /\ pages_from rest = Ok after
          /\ parseMarkdown md
             = Ok (before
                   ++ (lead_page (trim h2) lead
                       ++ map (block_page (trim h2)) (filter has_body blocks))
                   ++ after)).
Proof.
  intros H.
  destruct (H (doc ["# T"; "## A"; "### S"; "### U"; "x"]%string)
              [lit "# T"%string] (lit "## A"%string) (lit "A"%string) []
              [mkBlock (lit "### S"%string) (lit "S"%string) [];
               mkBlock (lit "### U"%string) (lit "U"%string)
                 [lit "x"%string]]
              [])
    as (before & after & Eb & Ea & E);
    try reflexivity; [discriminate|].
  vm_compute in Eb. injection Eb as <-.
  vm_compute in Ea. injection Ea as <-.
  vm_compute in E. discriminate E.
Qed.

(** The pages of the document from a second-level heading on: those of
    its section, then those of what follows the section. *)
Lemma pages_from_section (h2l h2 : str) (body rest : list str)
    (subPages : list SubPage) :
  js_match h2_re h2l = Some h2 ->
  finish_section (section_loop (body ++ rest) [] []) = (subPages, rest) ->
  exists after,
    pages_from rest = Ok after
    /\ pages_from (h2l :: body ++ rest)
       = Ok (section_pages (trim h2) subPages ++ after).
Proof.
  intros Hh2 Hsec. destruct (pages_from_ends rest) as [after Ea].
  exists after. split; [exact Ea|].
  rewrite pages_from_cons, Hh2, Hsec, Ea. reflexivity.
Qed.

(** C2, amended. In a document with a top-level heading, take a
    second-level heading after it whose section is made of plain lines
    followed by one or more third-level headings with a text that is not
    blank, each followed by plain lines. Then [parseMarkdown] returns,
    between the pages of what comes before the section and the pages of
    what comes after it: a page without subtitle for the lines before the
    first third-level heading, if they are not blank, and then one page
    for every third-level heading, whether or not anything stands under
    it. All carry the trimmed text of the second-level heading as title;
    the page of a third-level heading has its trimmed text as subtitle
    and the trimmed lines under it, without the heading line, as
    content. *)
Theorem section_with_subheadings (md : str) (pre : list str) (h2l h2 : str)
    (lead : list str) (blocks : list block) (rest : list str) :
  split_on nl md
  = pre ++ h2l :: (lead ++ concat (map block_lines blocks)) ++ rest ->
  has_h1 pre = true ->
  js_match h2_re h2l = Some h2 ->
  forallb plain_line lead = true ->
  forallb well_formed_block blocks = true ->
  blocks <> [] ->
  ends_section rest = true ->
  exists before after,
    parse_lines pre = Ok before
    /\ pages_from rest = Ok after
    /\ parseMarkdown md
       = Ok (before
             ++ (lead_page (trim h2) lead
                 ++ map (block_page (trim h2)) blocks)
             ++ after).
Proof.
  intros Hsplit Hh1 Hh2 Hlead Hblocks Hne Hend.
  destruct (parse_lines_ends pre) as [before Eb].
  assert (Hsec : finish_section
                   (section_loop
                      ((lead ++ concat (map block_lines blocks)) ++ rest)
                      [] [])
                 = (push_pending lead [] ++ map block_subPage blocks, rest)).
  { rewrite <- app_assoc, (@section_loop_plain lead Hlead).
    apply finish_section_blocks; assumption. }
  destruct (@pages_from_section h2l h2 _ rest _ Hh2 Hsec)
    as (after & Ea & Epages).
  exists before, after. split; [exact Eb|]. split; [exact Ea|].
  unfold parseMarkdown.
  rewrite Hsplit, (@parse_lines_app pre h2l h2 _ Hh1 Hh2), Eb, Epages.
  cbn [bind]. rewrite (@section_pages_blocks _ lead blocks Hlead Hblocks Hne).
  reflexivity.
Qed.

Lemma section_with_subheadings_witness :
  exists before after,
    parse_lines [lit "# Title"%string; lit "intro text"%string] = Ok before
    /\ pages_from [lit "## Page Three"%string] = Ok after
    /\ parseMarkdown
         (doc ["# Title"; "intro text"; "## Page Two"; "lead"; EmptyString;
               "### Sub A"; "sub body"; "### Sub B"; EmptyString;
               "## Page Three"]%string)
       = Ok (before
             ++ (lead_page (trim (lit "Page Two"%string))
                   [lit "lead"%string; []]
                 ++ map (block_page (trim (lit "Page Two"%string)))
                      [mkBlock (lit "### Sub A"%string) (lit "Sub A"%string)
                         [lit "sub body"%string];
                       mkBlock (lit "### Sub B"%string) (lit "Sub B"%string)
                         [[]]])
             ++ after).
Proof.
  apply (@section_with_subheadings
           (doc ["# Title"; "intro text"; "## Page Two"; "lead"; EmptyString;
                 "### Sub A"; "sub body"; "### Sub B"; EmptyString;
                 "## Page Three"]%string)
           [lit "# Title"%string; lit "intro text"%string]
           (lit "## Page Two"%string) (lit "Page Two"%string)
           [lit "lead"%string; []]
           [mkBlock (lit "### Sub A"%string) (lit "Sub A"%string)
              [lit "sub body"%string];
            mkBlock (lit "### Sub B"%string) (lit "Sub B"%string)
              [[]]]
           [lit "## Page Three"%string]);
    try reflexivity.
  discriminate.
Defined.

(** A third-level heading whose text is blank is outside the amended
    claim: its page has the empty string as subtitle and keeps the
    heading line in its content. *)
Example blank_subheading_keeps_line :
  parseMarkdown (doc ["# T"; "## A"; "###  "; "body"]%string)
  = Ok [mkPage TitlePage (lit "T"%string) None [];
        mkPage ContentPage (lit "A"%string) (Some [])
          (doc ["###  "; "body"]%string)].
Proof. reflexivity. Qed.

(** C3, as stated, fails: a second-level heading before the top-level
    heading has no page. *)
Lemma heading_before_title_has_no_page :
  ~ (forall md pre h2l h2 tail,
        split_on nl md = pre ++ h2l :: tail ->
        js_match h2_re h2l = Some h2 ->
        exists pages,
          parseMarkdown md = Ok pages
          /\ Exists (fun p => type p = ContentPage /\ title p = trim h2)
               pages).
Proof.
  intros H.
  destruct (H (doc ["## Early"; "# T"]%string) [] (lit "## Early"%string)
              (lit "Early"%string) [lit "# T"%string] eq_refl eq_refl)
    as (pages & E & Hex).
  vm_compute in E. injection E as <-.
  inversion Hex as [p ps [Htype _]|p ps Hex']; subst.
  - discriminate Htype.
  - inversion Hex'.
Qed.

(** C3, amended. In a document with a top-level heading, every
    second-level heading after it is represented: [parseMarkdown] returns,
    after the pages of what comes before the heading, at least one content
    page with the trimmed text of the heading as title. When the section
    of the heading has no third-level heading and its lines are blank,
    it is exactly one page, without subtitle and with empty content,
    followed by the pages of what comes after the section. *)
Theorem section_always_has_page (md : str) (pre : list str) (h2l h2 : str)
    (tail : list str) :
  split_on nl md = pre ++ h2l :: tail ->
  has_h1 pre = true ->
  js_match h2_re h2l = Some h2 ->
  (exists before p ps after,
      parse_lines pre = Ok before
      /\ parseMarkdown md = Ok (before ++ (p :: ps) ++ after)
      /\ Forall (fun q => type q = ContentPage /\ title q = trim h2)
           (p :: ps))
  /\ (forall body rest,
         tail = body ++ rest ->
         forallb plain_line body = true ->
         blank (join [nl] body) = true ->
         ends_section rest = true ->
         exists before after,
           parse_lines pre = Ok before
           /\ pages_from rest = Ok after
           /\ parseMarkdown md
              = Ok (before ++ [mkPage ContentPage (trim h2) None []]
                      ++ after)).
Proof.
  intros Hsplit Hh1 Hh2.
  destruct (parse_lines_ends pre) as [before Eb].
  assert (Hparse : parseMarkdown md
                   = (b <- pages_from (h2l :: tail) ;; Ok (before ++ b))).
  { unfold parseMarkdown.
    rewrite Hsplit, (@parse_lines_app pre h2l h2 _ Hh1 Hh2), Eb.
    reflexivity. }
  split.
  - rewrite pages_from_cons, Hh2 in Hparse.
    destruct (finish_section (section_loop tail [] [])) as [subs rest'].
    destruct (pages_from_ends rest') as [after Ea].
    rewrite Ea in Hparse. cbn [bind] in Hparse.
    destruct (section_pages_shape (trim h2) subs) as (p & ps & Esec & Hall).
    rewrite Esec in Hparse.
    exists before, p, ps, after. split; [exact Eb|].
    split; [exact Hparse|exact Hall].
  - intros body rest -> Hplain Hblank Hend.
    assert (Hsec : finish_section (section_loop (body ++ rest) [] [])
                   = ([], rest)).
    { rewrite (@section_loop_plain body Hplain).
      rewrite (@finish_section_end rest _ _ Hend). cbn [app].
      rewrite (@push_pending_lead body Hplain), Hblank. reflexivity. }
    destruct (@pages_from_section h2l h2 _ rest _ Hh2 Hsec)
      as (after & Ea & Epages).
    exists before, after. split; [exact Eb|]. split; [exact Ea|].
    rewrite Hparse, Epages. reflexivity.
Qed.

Lemma section_always_has_page_witness :
  exists before after,
    parse_lines [lit "# T"%string] = Ok before
    /\ pages_from [lit "## B"%string; lit "text"%string] = Ok after
    /\ parseMarkdown (doc ["# T"; "## A"; EmptyString; "  "; "## B"; "text"]%string)
       = Ok (before ++ [mkPage ContentPage (trim (lit "A"%string)) None []]
               ++ after).
Proof.
  apply (proj2 (@section_always_has_page
                  (doc ["# T"; "## A"; EmptyString; "  "; "## B"; "text"]%string)
                  [lit "# T"%string] (lit "## A"%string) (lit "A"%string)
                  [[]; lit "  "%string; lit "## B"%string;
                   lit "text"%string]
                  eq_refl eq_refl eq_refl)
          [[]; lit "  "%string]
          [lit "## B"%string; lit "text"%string]);
    reflexivity.
Defined.

(** The scenario of the specification: a title with an introduction, a
    plain page, and a page that starts with a third-level heading. *)
Example parse_scenario :
  parseMarkdown
    (doc ["# Title"; "intro text"; "## Page One"; "body one"; "## Page Two";
          "### Sub A"; "sub body"; EmptyString]%string)
  = Ok [mkPage TitlePage (lit "Title"%string) None (lit "intro text"%string);
        mkPage ContentPage (lit "Page One"%string) None
          (lit "body one"%string);
        mkPage ContentPage (lit "Page Two"%string)
          (Some (lit "Sub A"%string)) (lit "sub body"%string)].
Proof. reflexivity. Qed.

(** The scenario of the specification for the formatter: the delimiters
    are removed and each span is wrapped in its style and a reset. *)
Example format_scenario :
  formatContent (lit "**bold** and *italic* and `code`"%string)
  = red ++ lit "bold"%string ++ reset ++ lit " and "%string
    ++ cyan ++ lit "italic"%string ++ reset ++ lit " and "%string
    ++ orange ++ lit "code"%string ++ reset.
Proof. reflexivity. Qed.

(** The scenario of the specification for the renderer: a content page
    without content on a terminal of 24 rows and 80 columns is its header
    and 22 blank rows. *)
Example render_scenario :
  formatPage (mkPage ContentPage (lit "Page"%string) None []) (mkSize 24 80)
  = Ok (green ++ lit "Page"%string ++ reset ++ [nl] ++ repeat_str [nl] 22).
Proof. reflexivity. Qed.

(** A page rendered on the smallest terminal: nothing is padded and each
    character of the content gets a line. *)
Example render_smallest :
  formatPage (mkPage TitlePage (lit "T"%string) None (lit "ab"%string))
    (mkSize 1 1)
  = Ok (green ++ lit "T"%string ++ reset ++ [nl] ++ lit "a"%string ++ [nl]
        ++ lit "b"%string).
Proof. reflexivity. Qed.

(* ================================================================== *)
(** * Further properties of the parser *)
(* ================================================================== *)

Lemma trimStart_idem (s : str) : trimStart (trimStart s) = trimStart s.
Proof. apply drop_while_idem. Qed.

Lemma trim_idem (s : str) : trim (trim s) = trim s.
Proof.
  unfold trim. rewrite (trimStart_trimEnd (trimStart s)).
  rewrite trimStart_idem, trimEnd_idem. reflexivity.
Qed.

Lemma has_h1_is_h1 (lines : list str) :
  has_h1 lines = existsb is_h1 lines.
Proof. reflexivity. Qed.

(** With a top-level heading the title loop pushes one title page and
    leaves the lines from the next heading of level 1 to 3 on. *)
Lemma title_loop_after_h1 (lines : list str) :
  has_h1 lines = true ->
  exists t,
    title_loop lines = ([t], snd (title_content (after_h1 lines)))
    /\ type t = TitlePage /\ page_trimmed t.
Proof.
  induction lines as [|l lines IH]; intros H; [discriminate H|].
  unfold has_h1 in H. simpl in H. cbn [title_loop after_h1]. unfold is_h1.
  destruct (js_match h1_re l) as [h1|].
  - destruct (title_content lines) as [c rest]. eexists. split; [reflexivity|].
    split; [reflexivity|]. repeat split; apply trim_idem.
  - simpl in H. apply IH. exact H.
Qed.

Lemma page_of_subPage_trimmed (t : str) (sp : SubPage) :
  trimmed t -> subPage_trimmed sp -> page_trimmed (page_of_subPage t sp).
Proof.
  intros Ht [Hc Hs]. unfold page_of_subPage, page_trimmed. cbn [title content subtitle].
  split; [exact Ht|]. split; [|exact Hs].
  destruct (truthy_opt (sp_subtitle sp)); [apply trim_idem|exact Hc].
Qed.

Lemma push_pending_trimmed (cur : list str) (subs : list SubPage) :
  Forall subPage_trimmed subs -> Forall subPage_trimmed (push_pending cur subs).
Proof.
  intros H. unfold push_pending. destruct cur as [|l cur]; [exact H|].
  cbv zeta. destruct (truthy _); [|exact H].
  apply Forall_app. split; [exact H|]. constructor; [|constructor].
  split; cbn [sp_content sp_subtitle]; [apply trim_idem|].
  destruct (js_match h3_re l); simpl; [apply trim_idem|exact I].
Qed.

Lemma finish_section_trimmed (lines : list str) :
  forall cur subs,
    Forall subPage_trimmed subs ->
    Forall subPage_trimmed (fst (finish_section (section_loop lines cur subs))).
Proof.
  induction lines as [|l lines IH]; intros cur subs H.
  - simpl. apply push_pending_trimmed. exact H.
  - cbn [section_loop]. destruct (js_test h2Next_re l).
    + simpl. apply push_pending_trimmed. exact H.
    + destruct (js_match h3_re l); apply IH;
        [apply push_pending_trimmed|]; exact H.
Qed.

Lemma section_pages_trimmed (t : str) (subs : list SubPage) :
  trimmed t -> Forall subPage_trimmed subs ->
  Forall page_trimmed (section_pages t subs).
Proof.
  intros Ht H. destruct subs as [|sp subs].
  - constructor; [|constructor].
    split; [exact Ht|]. split; [reflexivity|exact I].
  - rewrite section_pages_cons. apply Forall_forall. intros p Hp.
    apply in_map_iff in Hp. destruct Hp as (x & <- & Hx).
    apply page_of_subPage_trimmed; [exact Ht|].
    rewrite Forall_forall in H. apply H. exact Hx.
Qed.

(** Induction over the iterations of the page loop. *)
Lemma pages_from_ind (P : list str -> list Page -> Prop) :
  P [] [] ->
  (forall line rest ps,
      js_match h2_re line = None ->
      pages_from rest = Ok ps -> P rest ps -> P (line :: rest) ps) ->
  (forall line rest h2 subs rest' more,
      js_match h2_re line = Some h2 ->
      finish_section (section_loop rest [] []) = (subs, rest') ->
      pages_from rest' = Ok more -> P rest' more ->
      P (line :: rest) (section_pages (trim h2) subs ++ more)) ->
  forall lines, exists ps, pages_from lines = Ok ps /\ P lines ps.
Proof.
  intros Hnil Hskip Hsec lines. remember (length lines) as n eqn:Hn.
  assert (Hle : length lines <= n) by lia. clear Hn. revert lines Hle.
  induction n as [|n IH]; intros lines Hle.
  - destruct lines; [|simpl in Hle; lia]. exists []. split; [reflexivity|].
    exact Hnil.
  - destruct lines as [|line rest];
      [exists []; split; [reflexivity|exact Hnil]|].
    simpl in Hle. rewrite pages_from_cons.
    destruct (js_match h2_re line) as [h2|] eqn:Eh2.
    + pose proof (finish_section_rest_length rest [] []) as Hlen.
      destruct (finish_section (section_loop rest [] [])) as [subs rest']
        eqn:Esec.
      simpl in Hlen. destruct (IH rest') as (more & E & HP); [lia|].
      rewrite E. cbn [bind]. eexists. split; [reflexivity|].
      eapply Hsec; eassumption.
    + destruct (IH rest) as (ps & E & HP); [lia|].
      exists ps. split; [exact E|]. eapply Hskip; eassumption.
Qed.

(** The pages of the page loop are content pages with trimmed texts. *)
Lemma pages_from_content (lines : list str) :
  exists ps,
    pages_from lines = Ok ps
    /\ Forall (fun p => type p = ContentPage /\ page_trimmed p) ps.
Proof.
  apply (pages_from_ind
           (fun _ ps =>
              Forall (fun p => type p = ContentPage /\ page_trimmed p) ps)).
  - constructor.
  - intros. assumption.
  - intros line rest h2 subs rest' more _ Esec _ Hmore.
    apply Forall_app. split; [|exact Hmore].
    pose proof (@finish_section_trimmed rest [] [] (Forall_nil _)) as Ht.
    rewrite Esec in Ht. cbn [fst] in Ht.
    pose proof (@section_pages_trimmed (trim h2) subs (trim_idem h2) Ht) as H1.
    destruct (section_pages_shape (trim h2) subs) as (p & ps & E & H2).
    rewrite E in *. rewrite Forall_forall in *. intros q Hq. split.
    + apply (H2 q Hq).
    + apply (H1 q Hq).
Qed.

Lemma parseMarkdown_shape (md : str) :
  exists pages,
    parseMarkdown md = Ok pages
    /\ (has_h1 (split_on nl md) = false -> pages = [])
    /\ (has_h1 (split_on nl md) = true ->
        exists t rest,
          pages = t :: rest /\ type t = TitlePage
          /\ Forall (fun p => type p = ContentPage) rest).
Proof.
  unfold parseMarkdown, parse_lines.
  destruct (has_h1 (split_on nl md)) eqn:Hh1.
  - destruct (title_loop_after_h1 _ Hh1) as (t & E & Ht & _). rewrite E.
    destruct (pages_from_content (snd (title_content (after_h1 (split_on nl md)))))
      as (ps & Eps & Hps).
    unfold pages_from in Eps. rewrite Eps. cbn [bind app].
    eexists. split; [reflexivity|]. split; [discriminate|]. intros _.
    exists t, ps. split; [reflexivity|]. split; [exact Ht|].
    eapply Forall_impl; [|exact Hps]. intros p [Hp _]. exact Hp.
  - rewrite (@title_loop_no_h1 _ Hh1). exists []. split; [reflexivity|].
    split; [reflexivity|discriminate].
Qed.

(** X1. [parseMarkdown] always returns. Its result is empty exactly when
    no line is a top-level heading; otherwise it is one title page
    followed by content pages only. *)
Theorem parse_title_page_first (md : str) :
  exists pages,
    parseMarkdown md = Ok pages
    /\ (has_h1 (split_on nl md) = false -> pages = [])
    /\ (has_h1 (split_on nl md) = true ->
        exists t rest,
          pages = t :: rest /\ type t = TitlePage
          /\ Forall (fun p => type p = ContentPage) rest).
Proof. exact (parseMarkdown_shape md). Qed.

(** X2. Every text returned by [parseMarkdown] is trimmed: the title, the
    content and the subtitle of a page have no whitespace at either
    end. *)
Theorem parse_pages_trimmed (md : str) :
  exists pages, parseMarkdown md = Ok pages /\ Forall page_trimmed pages.
Proof.
  unfold parseMarkdown, parse_lines.
  destruct (has_h1 (split_on nl md)) eqn:Hh1.
  - destruct (title_loop_after_h1 _ Hh1) as (t & E & _ & Ht). rewrite E.
    destruct (pages_from_content (snd (title_content (after_h1 (split_on nl md)))))
      as (ps & Eps & Hps).
    unfold pages_from in Eps. rewrite Eps. cbn [bind app].
    eexists. split; [reflexivity|]. constructor; [exact Ht|].
    eapply Forall_impl; [|exact Hps]. intros p [_ Hp]. exact Hp.
  - rewrite (@title_loop_no_h1 _ Hh1). exists []. split; [reflexivity|].
    constructor.
Qed.

Lemma not_h2Next_not_h2 (l : str) :
  js_test h2Next_re l = false -> is_h2 l = false.
Proof.
  intros H. unfold is_h2. destruct (js_match h2_re l) as [t|] eqn:E;
    [|reflexivity].
  rewrite (@h2_is_h2Next l t E) in H. discriminate H.
Qed.

Lemma not_heading_not_h2 (l : str) :
  js_test heading_re l = false -> is_h2 l = false.
Proof.
  intros H. unfold is_h2. destruct (js_match h2_re l) as [t|] eqn:E;
    [|reflexivity].
  rewrite (@h2_is_heading l t E) in H. discriminate H.
Qed.

Lemma no_h3_app (a b : list str) :
  no_h3 (a ++ b) = no_h3 a && no_h3 b.
Proof. apply forallb_app. Qed.

(** Without third-level headings a section collects its lines into one
    pending block, and the lines it reads hold no second-level heading. *)
Lemma section_loop_no_h3 (lines : list str) :
  no_h3 lines = true ->
  forall cur,
    no_h3 cur = true ->
    exists cur',
      no_h3 cur' = true
      /\ fst (finish_section (section_loop lines cur []))
         = push_pending cur' []
      /\ filter is_h2 (snd (finish_section (section_loop lines cur [])))
         = filter is_h2 lines
      /\ no_h3 (snd (finish_section (section_loop lines cur []))) = true.
Proof.
  induction lines as [|l lines IH]; intros Hl cur Hcur.
  - exists cur. repeat split; assumption.
  - cbn [section_loop]. destruct (js_test h2Next_re l) eqn:En.
    + exists cur. repeat split; assumption.
    + pose proof Hl as Hl'. unfold no_h3 in Hl'. simpl in Hl'.
      apply andb_true_iff in Hl'. destruct Hl' as [Hh3 Hrest].
      unfold is_h3 in Hh3.
      destruct (js_match h3_re l) eqn:Eh3; [discriminate Hh3|].
      destruct (IH Hrest (cur ++ [l])) as (cur' & H1 & H2 & H3 & H4).
      { rewrite no_h3_app, Hcur. unfold no_h3. simpl. unfold is_h3.
        rewrite Eh3. reflexivity. }
      exists cur'. split; [exact H1|]. split; [exact H2|].
      split; [|exact H4]. rewrite H3. simpl.
      rewrite (not_h2Next_not_h2 _ En). reflexivity.
Qed.

Lemma section_pages_no_h3 (t : str) (cur : list str) :
  no_h3 cur = true ->
  exists c, section_pages t (push_pending cur []) = [mkPage ContentPage t None c].
Proof.
  intros H. destruct cur as [|l cur]; [exists []; reflexivity|].
  unfold push_pending. cbv zeta. unfold no_h3 in H. simpl in H.
  apply andb_true_iff in H. destruct H as [Hl _]. unfold is_h3 in Hl.
  destruct (js_match h3_re l); [discriminate Hl|].
  destruct (truthy _); eexists; reflexivity.
Qed.

Lemma pages_from_no_h3 (lines : list str) :
  exists ps,
    pages_from lines = Ok ps
    /\ (no_h3 lines = true ->
        length ps = length (filter is_h2 lines)
        /\ Forall (fun p => subtitle p = None) ps).
Proof.
  apply (pages_from_ind
           (fun lines ps =>
              no_h3 lines = true ->
              length ps = length (filter is_h2 lines)
              /\ Forall (fun p => subtitle p = None) ps)).
  - intros _. split; [reflexivity|constructor].
  - intros line rest ps Eh2 _ IH H. unfold no_h3 in H. simpl in H.
    apply andb_true_iff in H. destruct H as [_ H].
    simpl. unfold is_h2 at 1. rewrite Eh2. apply IH. exact H.
  - intros line rest h2 subs rest' more Eh2 Esec _ IH H.
    unfold no_h3 in H. simpl in H. apply andb_true_iff in H.
    destruct H as [_ H].
    destruct (section_loop_no_h3 _ H [] eq_refl) as (cur' & H1 & H2 & H3 & H4).
    rewrite Esec in H2, H3, H4. cbn [fst snd] in H2, H3, H4.
    destruct (section_pages_no_h3 (trim h2) _ H1) as [c Ec].
    rewrite H2, Ec. destruct (IH H4) as [IH1 IH2].
    simpl. unfold is_h2 at 1. rewrite Eh2. simpl. rewrite IH1, H3.
    split; [reflexivity|]. constructor; [reflexivity|exact IH2].
Qed.

Lemma title_content_rest (lines : list str) :
  filter is_h2 (snd (title_content lines)) = filter is_h2 lines
  /\ (no_h3 lines = true -> no_h3 (snd (title_content lines)) = true).
Proof.
  induction lines as [|l lines [IH1 IH2]]; [split; reflexivity|].
  cbn [title_content]. destruct (js_test heading_re l) eqn:E.
  - split; [reflexivity|]. intros H. exact H.
  - destruct (title_content lines) as [c rest]. cbn [snd] in *.
    split.
    + simpl. rewrite (not_heading_not_h2 _ E). exact IH1.
    + intros H. unfold no_h3 in H. simpl in H.
      apply andb_true_iff in H. apply IH2. exact (proj2 H).
Qed.

(** X3. In a document with a top-level heading and no third-level heading
    after it, [parseMarkdown] returns the title page followed by exactly
    one content page, without subtitle, for each second-level heading
    after the top-level one. In particular a document with a top-level
    heading and no second-level heading gives the title page alone. *)
Theorem parse_one_page_per_section (md : str) :
  has_h1 (split_on nl md) = true ->
  no_h3 (after_h1 (split_on nl md)) = true ->
  exists t ps,
    parseMarkdown md = Ok (t :: ps)
    /\ type t = TitlePage
    /\ length ps = length (filter is_h2 (after_h1 (split_on nl md)))
    /\ Forall (fun p => type p = ContentPage /\ subtitle p = None) ps.
Proof.
  intros Hh1 Hno. unfold parseMarkdown, parse_lines.
  destruct (title_loop_after_h1 _ Hh1) as (t & E & Ht & _). rewrite E.
  set (rest := snd (title_content (after_h1 (split_on nl md)))).
  destruct (title_content_rest (after_h1 (split_on nl md))) as [Hf Hn].
  fold rest in Hf, Hn.
  destruct (pages_from_no_h3 rest) as (ps & Eps & Hps).
  destruct (pages_from_content rest) as (ps' & Eps' & Hcontent).
  rewrite Eps in Eps'. injection Eps' as <-.
  unfold pages_from in Eps. rewrite Eps. cbn [bind app].
  destruct (Hps (Hn Hno)) as [Hlen Hsub].
  exists t, ps. split; [reflexivity|]. split; [exact Ht|].
  split; [rewrite Hlen, Hf; reflexivity|].
  rewrite Forall_forall in *. intros p Hp. split.
  - apply (Hcontent p Hp).
  - apply (Hsub p Hp).
Qed.

Lemma parse_one_page_per_section_witness :
  exists t ps,
    parseMarkdown (doc ["intro"; "# T"; "text"; "## A"; "a"; "#### deep";
                        "## B"]%string) = Ok (t :: ps)
    /\ type t = TitlePage
    /\ length ps = 2
    /\ Forall (fun p => type p = ContentPage /\ subtitle p = None) ps.
Proof.
  exact (@parse_one_page_per_section
           (doc ["intro"; "# T"; "text"; "## A"; "a"; "#### deep";
                 "## B"]%string) eq_refl eq_refl).
Defined.

Lemma title_loop_preamble (junk lines : list str) :
  has_h1 junk = false -> title_loop (junk ++ lines) = title_loop lines.
Proof.
  unfold has_h1. induction junk as [|l junk IH]; intros H; [reflexivity|].
  simpl in H. cbn [app title_loop].
  destruct (js_match h1_re l); [discriminate H|]. apply IH. exact H.
Qed.

(** X4. Whatever precedes the first top-level heading is ignored: a text
    without top-level heading put in front of a document, on lines of its
    own, does not change the pages. *)
Theorem parse_ignores_preamble (before after : str) :
  has_h1 (split_on nl before) = false ->
  parseMarkdown (before ++ nl :: after) = parseMarkdown after.
Proof.
  intros H. unfold parseMarkdown, parse_lines, split_on.
  rewrite split_by_app_sep by reflexivity.
  fold (split_on nl before). fold (split_on nl after).
  rewrite (@title_loop_preamble _ _ H). reflexivity.
Qed.

Lemma parse_ignores_preamble_witness :
  has_h1 (split_on nl (doc ["notes"; "## Early"; "### Sub"]%string)) = false
  /\ parseMarkdown (doc ["notes"; "## Early"; "### Sub"]%string ++ nl
                      :: doc ["# T"; "## A"]%string)
     = parseMarkdown (doc ["# T"; "## A"]%string).
Proof.
  split; [reflexivity|].
  exact (@parse_ignores_preamble (doc ["notes"; "## Early"; "### Sub"]%string)
           (doc ["# T"; "## A"]%string) eq_refl).
Defined.

Lemma heading_tests_bol (l : str) :
  is_h1 l = match rx (tl h1_re) None l with Some _ => true | None => false end
  /\ is_h2 l = match rx (tl h2_re) None l with Some _ => true | None => false end
  /\ is_h3 l = match rx (tl h3_re) None l with Some _ => true | None => false end
  /\ js_test heading_re l
     = match rx (tl heading_re) None l with Some _ => true | None => false end
  /\ js_test h2Next_re l
     = match rx (tl h2Next_re) None l with Some _ => true | None => false end.
Proof.
  unfold is_h1, is_h2, is_h3, h1_re, h2_re, h3_re, heading_re, h2Next_re.
  rewrite !js_match_bol, !js_test_bol. cbn [tl].
  repeat split;
    match goal with |- context [rx ?r None l] => destruct (rx r None l) as [[? ?]|] end;
    reflexivity.
Qed.

(** X5. Heading lines are recognised only with the exact marker followed
    by whitespace: a line that starts with four hashes, and a line whose
    run of at most three hashes is followed by the end of the line or by a
    character that is neither whitespace nor a hash, is no heading of any
    level; inside a section it is a plain line. *)
Theorem other_lines_are_text (s : str) (n : nat) :
  (let l := hash :: hash :: hash :: hash :: s in
   is_h1 l = false /\ is_h2 l = false /\ is_h3 l = false
   /\ js_test heading_re l = false /\ plain_line l = true)
  /\ (n <= 3 ->
      match s with
      | [] => true
      | c :: _ => negb (is_space c) && negb (is_char hash c)
      end = true ->
      let l := repeat hash n ++ s in
      is_h1 l = false /\ is_h2 l = false /\ is_h3 l = false
      /\ js_test heading_re l = false /\ plain_line l = true).
Proof.
  split.
  - cbv zeta. unfold plain_line.
    destruct (heading_tests_bol (hash :: hash :: hash :: hash :: s))
      as (-> & -> & H3 & -> & ->).
    assert (E3 : is_h3 (hash :: hash :: hash :: hash :: s) = false)
      by (rewrite H3; reflexivity).
    rewrite E3. unfold is_h3 in E3.
    destruct (js_match h3_re (hash :: hash :: hash :: hash :: s));
      [discriminate E3|].
    repeat split; reflexivity.
  - intros Hn Hs. cbv zeta. unfold plain_line.
    destruct (heading_tests_bol (repeat hash n ++ s))
      as (-> & -> & H3 & -> & ->).
    assert (Hall :
      rx (tl h1_re) None (repeat hash n ++ s) = None
      /\ rx (tl h2_re) None (repeat hash n ++ s) = None
      /\ rx (tl h3_re) None (repeat hash n ++ s) = None
      /\ rx (tl heading_re) None (repeat hash n ++ s) = None
      /\ rx (tl h2Next_re) None (repeat hash n ++ s) = None).
    { destruct s as [|c s].
      - do 4 (destruct n as [|n]; [repeat split; reflexivity|]). lia.
      - apply andb_true_iff in Hs. destruct Hs as [Hsp Hh].
        apply negb_true_iff in Hsp, Hh. pose proof Hh as Hh'.
        unfold is_char in Hh'.
        do 4 (destruct n as [|n];
              [repeat split; simpl; rewrite ?Hh, ?Hh', ?Hsp; simpl;
               rewrite ?Hh, ?Hh', ?Hsp; reflexivity|]).
        lia. }
    destruct Hall as (E1 & E2 & E3 & E4 & E5).
    rewrite E1, E2, E4, E5. rewrite E3 in H3. rewrite H3.
    unfold is_h3 in H3.
    destruct (js_match h3_re (repeat hash n ++ s)); [discriminate H3|].
    repeat split; reflexivity.
Qed.

(** X6. The pages of a document are those of its part before a
    second-level heading, when that part has a top-level heading,
    followed by the pages that the page loop finds from the heading
    on. *)
Theorem parse_appends_sections (first second : str) :
  has_h1 (split_on nl first) = true ->
  match split_on nl second with l :: _ => is_h2 l | [] => false end = true ->
  exists a b,
    parseMarkdown first = Ok a
    /\ pages_from (split_on nl second) = Ok b
    /\ parseMarkdown (first ++ nl :: second) = Ok (a ++ b).
Proof.
  intros H1 H2. destruct (parse_lines_ends (split_on nl first)) as [a Ea].
  destruct (pages_from_ends (split_on nl second)) as [b Eb].
  exists a, b. split; [exact Ea|]. split; [exact Eb|].
  unfold parseMarkdown, split_on. rewrite split_by_app_sep by reflexivity.
  fold (split_on nl first). fold (split_on nl second).
  destruct (split_on nl second) as [|l B]; [discriminate H2|].
  unfold is_h2 in H2. destruct (js_match h2_re l) as [h2|] eqn:E;
    [|discriminate H2].
  rewrite (@parse_lines_app _ l h2 B H1 E), Ea, Eb. reflexivity.
Qed.

Lemma parse_appends_sections_witness :
  exists a b,
    parseMarkdown (doc ["# T"; "## A"; "a"]%string) = Ok a
    /\ pages_from (split_on nl (doc ["## B"; "### S"; "b"]%string)) = Ok b
    /\ parseMarkdown (doc ["# T"; "## A"; "a"]%string ++ nl
                        :: doc ["## B"; "### S"; "b"]%string)
       = Ok (a ++ b).
Proof.
  exact (@parse_appends_sections (doc ["# T"; "## A"; "a"]%string)
           (doc ["## B"; "### S"; "b"]%string) eq_refl eq_refl).
Defined.

(* ================================================================== *)
(** * Further properties of the line wrapper *)
(* ================================================================== *)

Lemma visible_app (a b : str) : visible (a ++ b) = visible a ++ visible b.
Proof. apply filter_app. Qed.

Lemma visible_concat (xs : list str) :
  visible (concat xs) = concat (map visible xs).
Proof.
  induction xs as [|x xs IH]; [reflexivity|].
  simpl. rewrite visible_app, IH. reflexivity.
Qed.

Lemma visible_join (xs : list str) :
  visible (join [space] xs) = concat (map visible xs).
Proof.
  induction xs as [|x xs IH]; [reflexivity|].
  destruct xs as [|y xs].
  - simpl. rewrite app_nil_r. reflexivity.
  - rewrite join_cons, !visible_app, IH. reflexivity.
Qed.

Lemma visible_flush (result : list str) (current : str) :
  concat (map visible (flush result current))
  = concat (map visible result) ++ visible current.
Proof.
  unfold flush. destruct current as [|c cur]; simpl truthy; cbv iota.
  - rewrite app_nil_r. reflexivity.
  - rewrite map_app, concat_app. simpl. rewrite app_nil_r. reflexivity.
Qed.

(** The characters other than spaces go through the loop unchanged. *)
Lemma wrap_words_visible (fuel width : nat) :
  0 < width ->
  forall words result current,
    Forall (fun w => length w < fuel) words ->
    exists out,
      wrap_words fuel width words result current = Ok out
      /\ concat (map visible out)
         = concat (map visible result) ++ visible current
           ++ concat (map visible words).
Proof.
  intros Hw. induction words as [|w rest IH]; intros result current Hf.
  - simpl. eexists; split; [reflexivity|].
    rewrite visible_flush, app_nil_r. reflexivity.
  - inversion Hf as [|? ? Hwf Hrest]; subst. cbn [wrap_words map concat].
    destruct (width <? length w) eqn:Hlong.
    + destruct (@chunk_loop_spec w width Hw fuel 0)
        as (chunks & E & Hcat & _); [lia|].
      rewrite E. cbn [bind].
      destruct (IH (flush result current ++ chunks) [] Hrest)
        as (out & Eo & Ho).
      exists out. split; [exact Eo|]. rewrite Ho.
      rewrite map_app, concat_app, visible_flush, <- (visible_concat chunks),
        Hcat.
      simpl. rewrite <- !app_assoc. reflexivity.
    + destruct (length current + length w + 1 <=? width).
      * destruct (IH result
                    (current ++ (if truthy current then [space] else []) ++ w)
                    Hrest) as (out & Eo & Ho).
        exists out. split; [exact Eo|]. rewrite Ho, !visible_app.
        destruct (truthy current); simpl; rewrite <- !app_assoc;
          reflexivity.
      * destruct (IH (flush result current) w Hrest) as (out & Eo & Ho).
        exists out. split; [exact Eo|]. rewrite Ho, visible_flush.
        rewrite <- !app_assoc. reflexivity.
Qed.

(** X7. For every line and every width greater than 0, [wrapLine] loses
    and adds no character other than spaces: the lines it returns, read
    one after the other without their spaces, are the line without its
    spaces, also when words are hard-split. *)
Theorem wrapLine_keeps_characters (line : str) (width : nat) :
  0 < width ->
  exists out,
    wrapLine line width = Ok out
    /\ concat (map visible out) = visible line.
Proof.
  intros Hw.
  destruct (@wrap_words_visible (S (length line)) width Hw
              (split_on space line) [] [] (words_fuel line))
    as (out & E & H).
  exists out. split; [exact E|]. rewrite H. simpl.
  rewrite <- visible_join, join_split_on. reflexivity.
Qed.

Lemma wrapLine_keeps_characters_witness :
  0 < 3
  /\ exists out,
       wrapLine (lit " a  longword and more "%string) 3 = Ok out
       /\ concat (map visible out)
          = visible (lit " a  longword and more "%string).
Proof.
  split; [lia|].
  exact (@wrapLine_keeps_characters (lit " a  longword and more "%string) 3
           (Nat.lt_0_succ 2)).
Defined.

Lemma join_as_concat (w : str) (ws : list str) :
  join [space] (w :: ws) = w ++ concat (map (cons space) ws).
Proof.
  revert w. induction ws as [|v ws IH]; intros w.
  - simpl. rewrite app_nil_r. reflexivity.
  - rewrite join_cons, IH. reflexivity.
Qed.

Lemma wrap_words_one_line (fuel width : nat) :
  forall ws current,
    current <> [] ->
    length current + length (concat (map (cons space) ws)) <= width ->
    wrap_words fuel width ws [] current
    = Ok [current ++ concat (map (cons space) ws)].
Proof.
  induction ws as [|w ws IH]; intros current Hne Hlen.
  - simpl. rewrite app_nil_r. unfold flush.
    destruct current; [congruence|reflexivity].
  - cbn [map concat] in Hlen |- *. rewrite length_app in Hlen.
    simpl in Hlen. cbn [wrap_words].
    assert (H1 : (width <? length w) = false) by (apply Nat.ltb_ge; lia).
    assert (H2 : (length current + length w + 1 <=? width) = true)
      by (apply Nat.leb_le; lia).
    rewrite H1, H2.
    assert (Ht : truthy current = true)
      by (destruct current; [congruence|reflexivity]).
    rewrite Ht, IH.
    + rewrite <- !app_assoc. reflexivity.
    + destruct current; [congruence|discriminate].
    + rewrite !length_app. simpl. lia.
Qed.

(** X8. A line that is not longer than the width and does not start with
    a space is returned as it is, as the only line. *)
Theorem wrapLine_short_line (c : char) (s : str) (width : nat) :
  c <> space ->
  length (c :: s) <= width ->
  wrapLine (c :: s) width = Ok [c :: s].
Proof.
  intros Hc Hlen. unfold wrapLine.
  pose proof (join_split_on space (c :: s)) as Hjoin.
  pose proof (split_by_length (is_char space) (c :: s)) as Hwords.
  unfold split_on in *. cbn [split_by] in *.
  assert (Hcs : is_char space c = false)
    by (unfold is_char; apply N.eqb_neq; exact Hc).
  rewrite Hcs in *.
  destruct (split_by (is_char space) s) as [|w ws] eqn:Esplit.
  { exfalso. eapply split_by_nonempty; eassumption. }
  rewrite join_as_concat in Hjoin.
  inversion Hwords as [|? ? Hw0 _]; subst.
  cbn [wrap_words].
  assert (H1 : (width <? length (c :: w)) = false)
    by (apply Nat.ltb_ge; lia).
  rewrite H1.
  assert (Hrest : wrap_words (S (length (c :: s))) width ws [] (c :: w)
                  = Ok [c :: s]).
  { rewrite wrap_words_one_line; [rewrite Hjoin; reflexivity|discriminate|].
    rewrite <- length_app, Hjoin. exact Hlen. }
  destruct (length (@nil char) + length (c :: w) + 1 <=? width);
    exact Hrest.
Qed.

Lemma wrapLine_short_line_witness :
  wrapLine (lit "two  words "%string) 11 = Ok [lit "two  words "%string].
Proof.
  apply (@wrapLine_short_line (ch "t") (lit "wo  words "%string) 11).
  - discriminate.
  - simpl. lia.
Defined.

Lemma chunk_loop_zero_width (w : str) :
  w <> [] -> forall fuel, chunk_loop fuel w 0 0 = Diverges.
Proof.
  intros Hw. induction fuel as [|fuel IH]; [reflexivity|].
  cbn [chunk_loop]. destruct w as [|c w]; [congruence|].
  cbn [length Nat.ltb Nat.leb Nat.add]. rewrite IH. reflexivity.
Qed.

Lemma wrap_words_zero_width (fuel : nat) (words : list str) :
  forall result current,
    wrap_words fuel 0 words result current
    = if forallb (fun w => negb (truthy w)) words
      then Ok (flush (flush result current) [])
      else Diverges.
Proof.
  induction words as [|w words IH]; intros result current.
  - reflexivity.
  - cbn [wrap_words forallb]. destruct w as [|c w].
    + cbn [length Nat.ltb Nat.leb truthy negb andb].
      replace (length current + 0 + 1 <=? 0) with false
        by (symmetry; apply Nat.leb_gt; lia).
      rewrite IH. unfold flush at 2 4. reflexivity.
    + cbn [length Nat.ltb Nat.leb truthy negb andb].
      rewrite (@chunk_loop_zero_width (c :: w)) by discriminate.
      reflexivity.
Qed.

Lemma words_all_empty (line : str) :
  forallb (fun w => negb (truthy w)) (split_on space line)
  = forallb (is_char space) line.
Proof.
  unfold split_on. induction line as [|c line IH]; [reflexivity|].
  cbn [split_by forallb]. destruct (is_char space c); [exact IH|].
  pose proof (split_by_nonempty (is_char space) line) as Hne.
  destruct (split_by (is_char space) line); [congruence|reflexivity].
Qed.

(** X9. With width 0 [wrapLine] returns, with no line, only for a line
    made of spaces alone; on a line with any other character its chunk
    loop does not end, however many iterations it is allowed. *)
Theorem wrapLine_zero_width (line : str) :
  (forallb (is_char space) line = true -> wrapLine line 0 = Ok [])
  /\ (forallb (is_char space) line = false ->
      forall fuel,
        wrap_words fuel 0 (split_on space line) [] [] = Diverges).
Proof.
  split.
  - intros H. unfold wrapLine.
    rewrite wrap_words_zero_width, words_all_empty, H. reflexivity.
  - intros H fuel. rewrite wrap_words_zero_width, words_all_empty, H.
    reflexivity.
Qed.

(* ================================================================== *)
(** * Further properties of the renderer *)
(* ================================================================== *)

Local Open Scope Z_scope.

(** X10. [padContentBelow] puts the content lines between two runs of
    line breaks. When the lines fit the available rows the two runs and
    the lines together count exactly the available rows and the run below
    is as long as the run above or one longer; when they do not fit there
    is no padding at all. *)
Theorem padContentBelow_centers (contentLines : list str)
    (availableRows : Z) :
  let h := Z.of_nat (length contentLines) in
  let top := top_padding h availableRows in
  let bottom := bottom_padding h availableRows in
  padContentBelow contentLines availableRows
  = Ok (repeat_str [nl] (Z.to_nat top) ++ join [nl] contentLines
          ++ repeat_str [nl] (Z.to_nat bottom))
  /\ (h <= availableRows ->
      top + bottom + h = availableRows /\ top <= bottom <= top + 1)
  /\ (availableRows < h -> top = 0 /\ bottom = 0).
Proof.
  cbv zeta. split; [|split].
  - unfold padContentBelow.
    rewrite js_repeat_nonneg by apply top_padding_nonneg.
    rewrite js_repeat_nonneg by apply bottom_padding_nonneg.
    reflexivity.
  - intros Hfit. unfold bottom_padding, top_padding.
    pose proof (Z.div_mod (availableRows - Z.of_nat (length contentLines)) 2)
      as Hdm.
    pose proof (Z.mod_pos_bound
                  (availableRows - Z.of_nat (length contentLines)) 2) as Hm.
    lia.
  - intros Hover. unfold bottom_padding, top_padding.
    pose proof (Z.div_mod (availableRows - Z.of_nat (length contentLines)) 2)
      as Hdm.
    pose proof (Z.mod_pos_bound
                  (availableRows - Z.of_nat (length contentLines)) 2) as Hm.
    lia.
Qed.

Local Close Scope Z_scope.

Lemma split_by_pieces (p : char -> bool) (s : str) :
  Forall (fun w => forallb (fun c => negb (p c)) w = true) (split_by p s).
Proof.
  induction s as [|c s IH]; simpl.
  - repeat constructor.
  - destruct (p c) eqn:E.
    + constructor; [reflexivity|exact IH].
    + destruct (split_by p s) as [|w ws].
      * constructor; [simpl; rewrite E; reflexivity|constructor].
      * inversion IH; subst. constructor; [|assumption].
        simpl. rewrite E. simpl. assumption.
Qed.

(** Splitting what was joined gives the pieces back. *)
Lemma split_on_join (sep : char) (x : str) (xs : list str) :
  Forall (fun w => forallb (fun c => negb (is_char sep c)) w = true)
    (x :: xs) ->
  split_on sep (join [sep] (x :: xs)) = x :: xs.
Proof.
  revert x. induction xs as [|y xs IH]; intros x H.
  - simpl. apply split_by_no_sep. inversion H as [|? ? Hx _]; subst.
    rewrite forallb_forall in Hx. apply Forall_forall. intros c Hc.
    apply negb_true_iff. apply Hx. exact Hc.
  - inversion H as [|? ? Hx Hrest]; subst. rewrite join_cons.
    change ([sep] ++ join [sep] (y :: xs)) with (sep :: join [sep] (y :: xs)).
    unfold split_on. rewrite split_by_app_sep
      by (unfold is_char; apply N.eqb_refl).
    fold (split_on sep (join [sep] (y :: xs))). rewrite (IH y Hrest).
    rewrite split_by_no_sep; [reflexivity|].
    rewrite forallb_forall in Hx. apply Forall_forall. intros c Hc.
    apply negb_true_iff. apply Hx. exact Hc.
Qed.

(** X11. Below 100 columns [addLeftPadding] returns the text as it is;
    from 100 columns on it returns the text with four spaces in front of
    each of its lines, empty lines included, and nothing else changed. *)
Theorem addLeftPadding_lines (text : str) (cols : Z) :
  ((cols < 100)%Z -> addLeftPadding text cols = Ok text)
  /\ ((100 <= cols)%Z ->
      exists out,
        addLeftPadding text cols = Ok out
        /\ split_on nl out
           = map (fun line => lit "    "%string ++ line) (split_on nl text)).
Proof.
  unfold addLeftPadding, MIN_COLUMNS_FOR_PADDING. split.
  - intros H. apply Z.ltb_lt in H. rewrite H. reflexivity.
  - intros H. apply Z.ltb_ge in H. rewrite H. cbn [js_repeat bind].
    eexists. split; [reflexivity|].
    pose proof (split_by_nonempty (is_char nl) text) as Hne.
    pose proof (split_by_pieces (is_char nl) text) as Hpieces.
    unfold split_on at 2 3.
    destruct (split_by (is_char nl) text) as [|x xs]; [congruence|].
    cbn [map]. apply split_on_join.
    change (Forall (fun w => forallb (fun c => negb (is_char nl c)) w = true)
              (map (fun line => lit "    "%string ++ line) (x :: xs))).
    apply Forall_forall. intros w Hw. apply in_map_iff in Hw.
    destruct Hw as (l & <- & Hl). rewrite Forall_forall in Hpieces.
    rewrite forallb_app, (Hpieces l Hl). reflexivity.
Qed.

(* ================================================================== *)
(** * Further properties of the formatter *)
(* ================================================================== *)

(** A replacement whose expression matches nowhere changes nothing. *)
Lemma replace_all_nowhere (Q : char -> Prop) (r : regex)
    (f : str -> option str -> str) :
  (forall prev s, Forall Q s -> rx r prev s = None) ->
  forall s, Forall Q s -> forall prev, replace_all_from r f 0 prev s = s.
Proof.
  intros Hnone. induction s as [|c s IH]; intros Hs prev.
  - cbn [replace_all_from]. rewrite (Hnone prev [] Hs). reflexivity.
  - cbn [replace_all_from]. rewrite (Hnone prev (c :: s) Hs).
    inversion Hs; subst. rewrite IH by assumption. reflexivity.
Qed.

Lemma rx_lit_none (x : char) (r : regex) (prev : option char) (s : str) :
  match s with [] => true | c :: _ => negb (is_char x c) end = true ->
  rx (Lit x :: r) prev s = None.
Proof.
  destruct s as [|c s]; [reflexivity|]. intros H.
  apply negb_true_iff in H. unfold is_char in H. simpl. rewrite H.
  reflexivity.
Qed.

Lemma rx_bol_cls_none (m : bool) (p : char -> bool) (lo : nat)
    (hi : option nat) (cap : bool) (r : regex) (prev : option char)
    (s : str) :
  match s with [] => true | c :: _ => negb (p c) end = true ->
  rx (Bol m :: Cls p (S lo) hi true cap :: r) prev s = None.
Proof.
  intros H. cbn [rx]. destruct (at_bol m prev); [|reflexivity].
  assert (Hrun : run_len p s = 0).
  { destruct s as [|c s]; [reflexivity|]. apply negb_true_iff in H.
    simpl. rewrite H. reflexivity. }
  rewrite Hrun. destruct hi; reflexivity.
Qed.

(** X12. A text without backtick, asterisk, underscore, opening bracket,
    hash, hyphen or digit is returned by [formatContent] as it is. *)
Theorem formatContent_plain_text (text : str) :
  forallb (fun c => negb (is_markup c)) text = true ->
  formatContent text = text.
Proof.
  intros H.
  assert (Hq : Forall (fun c => is_markup c = false) text).
  { rewrite forallb_forall in H. apply Forall_forall. intros c Hc.
    apply negb_true_iff. apply H. exact Hc. }
  assert (Hhead : forall (q : char -> bool) s,
             (forall c, is_markup c = false -> q c = false) ->
             Forall (fun c => is_markup c = false) s ->
             match s with [] => true | c :: _ => negb (q c) end = true).
  { intros q s Hqc Hs. destruct s as [|c s]; [reflexivity|].
    inversion Hs; subst. rewrite Hqc by assumption. reflexivity. }
  assert (Hm : forall c, is_markup c = false ->
             is_char backtick c = false /\ is_char star c = false
             /\ is_char underscore c = false /\ is_char (ch "[") c = false
             /\ is_char hash c = false /\ is_char (ch "-") c = false
             /\ is_digit c = false).
  { intros c Hc. unfold is_markup in Hc. rewrite !orb_false_iff in Hc.
    tauto. }
  unfold formatContent, fence_pass, heading_marker_pass, bold_star_pass,
    bold_underscore_pass, italic_star_pass, italic_underscore_pass, code_pass,
    link_pass, bullet_pass, ordered_pass, replace_all.
  rewrite (@replace_all_nowhere _ fence_re _
             (fun prev s Hs => @rx_lit_none backtick _ prev s
                (Hhead _ s (fun c Hc => proj1 (Hm c Hc)) Hs)) text Hq).
  rewrite (@replace_all_nowhere _ heading_marker_re _
             (fun prev s Hs => @rx_bol_cls_none true (is_char hash) 0 _ _ _
                prev s
                (Hhead _ s (fun c Hc =>
                   proj1 (proj2 (proj2 (proj2 (proj2 (Hm c Hc)))))) Hs))
             text Hq).
  rewrite (@replace_all_nowhere _ bold_star_re _
             (fun prev s Hs => @rx_lit_none star _ prev s
                (Hhead _ s (fun c Hc => proj1 (proj2 (Hm c Hc))) Hs)) text Hq).
  rewrite (@replace_all_nowhere _ bold_underscore_re _
             (fun prev s Hs => @rx_lit_none underscore _ prev s
                (Hhead _ s (fun c Hc => proj1 (proj2 (proj2 (Hm c Hc)))) Hs))
             text Hq).
  rewrite (@replace_all_nowhere _ italic_star_re _
             (fun prev s Hs => @rx_lit_none star _ prev s
                (Hhead _ s (fun c Hc => proj1 (proj2 (Hm c Hc))) Hs)) text Hq).
  rewrite (@replace_all_nowhere _ italic_underscore_re _
             (fun prev s Hs => @rx_lit_none underscore _ prev s
                (Hhead _ s (fun c Hc => proj1 (proj2 (proj2 (Hm c Hc)))) Hs))
             text Hq).
  rewrite (@replace_all_nowhere _ code_re _
             (fun prev s Hs => @rx_lit_none backtick _ prev s
                (Hhead _ s (fun c Hc => proj1 (Hm c Hc)) Hs)) text Hq).
  rewrite (@replace_all_nowhere _ link_re _
             (fun prev s Hs => @rx_lit_none (ch "[") _ prev s
                (Hhead _ s (fun c Hc =>
                   proj1 (proj2 (proj2 (proj2 (Hm c Hc))))) Hs)) text Hq).
  rewrite (@replace_all_nowhere _ bullet_re _
             (fun prev s Hs =>
                @rx_bol_cls_none true
                  (fun c => is_char (ch "-") c || is_char star c) 0 _ _ _
                  prev s
                  (Hhead _ s (fun c Hc =>
                     eq_trans
                       (f_equal2 orb
                          (proj1 (proj2 (proj2 (proj2 (proj2 (proj2 (Hm c Hc)))))))
                          (proj1 (proj2 (Hm c Hc))))
                       eq_refl) Hs))
             text Hq).
  apply (@replace_all_nowhere _ ordered_re _
           (fun prev s Hs => @rx_bol_cls_none true is_digit 0 _ _ _ prev s
              (Hhead _ s (fun c Hc =>
                 proj2 (proj2 (proj2 (proj2 (proj2 (proj2 (Hm c Hc))))))) Hs))
           text Hq).
Qed.

Lemma formatContent_plain_text_witness :
  formatContent (doc ["Plain words, (round) and {curly}."; "Second line"]%string)
  = doc ["Plain words, (round) and {curly}."; "Second line"]%string.
Proof.
  exact (@formatContent_plain_text
           (doc ["Plain words, (round) and {curly}."; "Second line"]%string)
           eq_refl).
Defined.

Lemma try_down_ext {A : Type} (f g : nat -> option A) (lo : nat) :
  (forall k, f k = g k) -> forall n, try_down f lo n = try_down g lo n.
Proof.
  intros H. induction n as [|n IH]; simpl; rewrite H; [reflexivity|].
  rewrite IH. reflexivity.
Qed.

Lemma try_up_ext {A : Type} (f g : nat -> option A) :
  (forall k, f k = g k) -> forall cnt k, try_up f k cnt = try_up g k cnt.
Proof.
  intros H. induction cnt as [|cnt IH]; intros k; simpl; [reflexivity|].
  rewrite H, IH. reflexivity.
Qed.

(** An expression without [^] does not look at what precedes the
    position. *)
Lemma rx_prev_irrelevant (r : regex) :
  no_bol r = true -> forall p1 p2 s, rx r p1 s = rx r p2 s.
Proof.
  induction r as [|a r IH]; intros H p1 p2 s; [reflexivity|].
  unfold no_bol in H. simpl in H. apply andb_true_iff in H.
  destruct H as [Ha Hr]. specialize (IH Hr).
  destruct a as [c|p lo hi greedy cap|m|].
  - reflexivity.
  - cbn [rx]. destruct greedy.
    + apply try_down_ext. intros k.
      rewrite (IH (prev_after p1 (firstn k s)) (prev_after p2 (firstn k s))).
      reflexivity.
    + apply try_up_ext. intros k.
      rewrite (IH (prev_after p1 (firstn k s)) (prev_after p2 (firstn k s))).
      reflexivity.
  - discriminate Ha.
  - cbn [rx]. destruct s; [apply IH|reflexivity].
Qed.

Lemma replace_all_from_prev (r : regex) (f : str -> option str -> str) :
  no_bol r = true ->
  forall s skip p1 p2,
    replace_all_from r f skip p1 s = replace_all_from r f skip p2 s.
Proof.
  intros H. induction s as [|c s IH]; intros skip p1 p2.
  - cbn [replace_all_from]. rewrite (rx_prev_irrelevant r H p1 p2).
    reflexivity.
  - cbn [replace_all_from]. rewrite (rx_prev_irrelevant r H p1 p2).
    reflexivity.
Qed.

Lemma replace_all_from_skip (r : regex) (f : str -> option str -> str)
    (a b : str) :
  forall prev,
    replace_all_from r f (length a) prev (a ++ b)
    = replace_all_from r f 0 (prev_after prev a) b.
Proof.
  induction a as [|c a IH]; intros prev; [reflexivity|].
  cbn [length app replace_all_from prev_after]. apply IH.
Qed.

(** X13. The link replacement turns a link at the start of a text into
    its label alone, the target being dropped, and goes on with what
    follows the link as if it were a text of its own. The label must not
    be empty nor hold a closing bracket, the target must not be empty nor
    hold a closing parenthesis. *)
Theorem link_pass_link (label target rest : str) :
  truthy label = true ->
  forallb (not_char (ch "]")) label = true ->
  truthy target = true ->
  forallb (not_char (ch ")")) target = true ->
  link_pass (link_text label target ++ rest) = label ++ link_pass rest.
Proof.
  intros Hl Hlc Ht Htc.
  assert (Hll : 1 <= length label)
    by (destruct label; [discriminate Hl|simpl; lia]).
  assert (Htl : 1 <= length target)
    by (destruct target; [discriminate Ht|simpl; lia]).
  assert (E2 : forall p,
             rx [plus (not_char (ch ")")); Lit (ch ")")] p
               (target ++ ch ")" :: rest)
             = Some (length target + 1, None)).
  { intros p. unfold plus.
    rewrite (@rx_plus_run _ false _ p target (ch ")" :: rest) 1 None);
      [reflexivity|exact Htc|reflexivity|exact Htl|].
    rewrite rx_lit. reflexivity. }
  assert (E4 : rx [group_plus (not_char (ch "]")); Lit (ch "]");
                  Lit (ch "("); plus (not_char (ch ")")); Lit (ch ")")]
                 (Some (ch "["))
                 (label ++ ch "]" :: ch "(" :: target ++ ch ")" :: rest)
               = Some (length label + S (S (length target + 1)), Some label)).
  { unfold group_plus.
    rewrite (@rx_plus_run _ true _ (Some (ch "[")) label
               (ch "]" :: ch "(" :: target ++ ch ")" :: rest)
               (S (S (length target + 1))) None);
      [reflexivity|exact Hlc|reflexivity|exact Hll|].
    rewrite !rx_lit, E2. reflexivity. }
  assert (Hs : link_text label target ++ rest
               = ch "[" :: label ++ ch "]" :: ch "(" :: target ++ ch ")"
                   :: rest).
  { unfold link_text. cbn [app]. rewrite <- app_assoc. cbn [app].
    rewrite <- app_assoc. reflexivity. }
  unfold link_pass, replace_all. rewrite Hs.
  cbn [replace_all_from]. unfold link_re at 1. rewrite rx_lit, E4.
  unfold rep_wrap at 1. cbn [app]. rewrite app_nil_r.
  f_equal.
  replace (length label + S (S (length target + 1)))
    with (length (label ++ ch "]" :: ch "(" :: target ++ [ch ")"]))
    by (rewrite !length_app; simpl; rewrite length_app; simpl; lia).
  replace (label ++ ch "]" :: ch "(" :: target ++ ch ")" :: rest)
    with ((label ++ ch "]" :: ch "(" :: target ++ [ch ")"]) ++ rest)
    by (rewrite <- !app_assoc; cbn [app]; rewrite <- app_assoc;
        reflexivity).
  rewrite replace_all_from_skip.
  apply replace_all_from_prev. reflexivity.
Qed.

Lemma link_pass_link_witness :
  link_pass (link_text (lit "the docs"%string) (lit "https://x.y/z"%string)
               ++ lit " and [more](m)."%string)
  = lit "the docs"%string ++ link_pass (lit " and [more](m)."%string).
Proof.
  exact (@link_pass_link (lit "the docs"%string) (lit "https://x.y/z"%string)
           (lit " and [more](m)."%string) eq_refl eq_refl eq_refl eq_refl).
Defined.

(* ================================================================== *)
(** * Further properties of the navigation *)
(* ================================================================== *)

Local Open Scope Z_scope.



Lemma run_exited (pageCount : Z) (s : session) (es : list event) :
  exited s = true -> run pageCount s es = (s, []).
Proof.
  intros H. induction es as [|e es IH]; [reflexivity|].
  cbn [run]. unfold step. rewrite H, IH. reflexivity.
Qed.

Lemma run_app (pageCount : Z) (a b : list event) :
  forall s,
    run pageCount s (a ++ b)
    = (fst (run pageCount (fst (run pageCount s a)) b),
       snd (run pageCount s a)
         ++ snd (run pageCount (fst (run pageCount s a)) b)).
Proof.
  induction a as [|e a IH]; intros s.
  - cbn [app run fst snd]. destruct (run pageCount s b). reflexivity.
  - cbn [app run]. destruct (step pageCount s e) as [s1 out1].
    rewrite IH. destruct (run pageCount s1 a) as [s2 out2].
    cbn [fst snd]. rewrite app_assoc. reflexivity.
Qed.

(** X14. Once a quit key was pressed the session has ended: whatever
    events follow it, nothing more is written and the state stays as the
    quit key left it. *)
Theorem quit_ends_session (pageCount : Z) (s : session) (k : str)
    (before after : list event) :
  is_quit k = true ->
  run pageCount s (before ++ Key k :: after)
  = run pageCount s (before ++ [Key k])
  /\ exited (fst (run pageCount s (before ++ [Key k]))) = true.
Proof.
  intros Hq.
  assert (Hexit : forall s1, exited (fst (step pageCount s1 (Key k))) = true).
  { intros s1. unfold step. destruct (exited s1) eqn:E; [exact E|].
    rewrite on_data_quit by exact Hq. reflexivity. }
  rewrite !run_app. cbn [run].
  specialize (Hexit (fst (run pageCount s before))).
  destruct (step pageCount (fst (run pageCount s before)) (Key k))
    as [s1 out1].
  cbn [fst] in Hexit. rewrite (@run_exited pageCount s1 after Hexit).
  cbn [fst snd]. split; [reflexivity|exact Hexit].
Qed.

Lemma quit_ends_session_witness :
  run 3 initial ([Key key_n] ++ Key key_q :: [Key key_n; Resize; Key key_p])
  = run 3 initial ([Key key_n] ++ [Key key_q])
  /\ exited (fst (run 3 initial ([Key key_n] ++ [Key key_q]))) = true.
Proof.
  exact (@quit_ends_session 3 initial key_q [Key key_n]
           [Key key_n; Resize; Key key_p] eq_refl).
Defined.

(** X15. Pressing an advance key [n] times moves the index forward by [n]
    or to the last page, whichever comes first; pressing a retreat key [n]
    times moves it back by [n] or to the first page. So every page can be
    reached from every other page. *)
Theorem presses_move (pageCount : Z) (s : session) (k : str) (n : nat) :
  1 <= pageCount ->
  0 <= idx s <= pageCount - 1 ->
  exited s = false ->
  (is_next k = true ->
   fst (run pageCount s (presses k n))
   = mkSession (Z.min (idx s + Z.of_nat n) (pageCount - 1)) false)
  /\ (is_previous k = true ->
      fst (run pageCount s (presses k n))
      = mkSession (Z.max (idx s - Z.of_nat n) 0) false).
Proof.
  intros Hn. revert s. induction n as [|n IH]; intros s Hs He.
  - split; intros _; cbn [presses repeat run fst];
      destruct s as [i e]; simpl in *; subst e; f_equal; lia.
  - split; intros Hk.
    + unfold presses. cbn [repeat run]. unfold step. rewrite He.
      rewrite on_data_next by exact Hk.
      destruct (IH (mkSession (Z.min (idx s + 1) (pageCount - 1)) false))
        as [IHn _]; [simpl; lia|reflexivity|].
      specialize (IHn Hk). unfold presses in IHn.
      destruct (run pageCount _ (repeat (Key k) n)) as [s2 out2].
      cbn [fst] in IHn |- *. rewrite IHn. cbn [idx]. f_equal. lia.
    + unfold presses. cbn [repeat run]. unfold step. rewrite He.
      rewrite on_data_previous by exact Hk.
      destruct (IH (mkSession (Z.max (idx s - 1) 0) false))
        as [_ IHp]; [simpl; lia|reflexivity|].
      specialize (IHp Hk). unfold presses in IHp.
      destruct (run pageCount _ (repeat (Key k) n)) as [s2 out2].
      cbn [fst] in IHp |- *. rewrite IHp. cbn [idx]. f_equal. lia.
Qed.

Lemma presses_move_witness :
  fst (run 5 (mkSession 1 false) (presses key_j 2)) = mkSession 3 false
  /\ fst (run 5 (mkSession 1 false) (presses key_j 9)) = mkSession 4 false.
Proof.
  split.
  - apply (@presses_move 5 (mkSession 1 false) key_j 2); simpl;
      try lia; reflexivity.
  - apply (@presses_move 5 (mkSession 1 false) key_j 9); simpl;
      try lia; reflexivity.
Defined.

Local Close Scope Z_scope.

(* ================================================================== *)
(** * The presentation as a whole *)
(* ================================================================== *)

Local Open Scope Z_scope.






Local Close Scope Z_scope.

(* ================================================================== *)
(** * The height of a frame *)
(* ================================================================== *)

















(* ================================================================== *)
(** * The contract of the line wrapper *)
(* ================================================================== *)

Lemma flush_app (r0 result : list str) (current : str) :
  flush (r0 ++ result) current = r0 ++ flush result current.
Proof.
  unfold flush. destruct (truthy current); [|reflexivity].
  symmetry. apply app_assoc.
Qed.

(** Lines already pushed are never touched again. *)
Lemma wrap_words_result_app (fuel width : nat) (r0 : list str) :
  forall words result current,
    wrap_words fuel width words (r0 ++ result) current
    = match wrap_words fuel width words result current with
      | Ok out => Ok (r0 ++ out)
      | RangeError => RangeError
      | Diverges => Diverges
      end.
Proof.
  induction words as [|w rest IH]; intros result current.
  - cbn [wrap_words]. rewrite flush_app. reflexivity.
  - cbn [wrap_words]. destruct (width <? length w).
    + destruct (chunk_loop fuel w width 0) as [chunks| |]; cbn [bind];
        try reflexivity.
      rewrite flush_app, <- app_assoc. apply IH.
    + destruct (length current + length w + 1 <=? width).
      * apply IH.
      * rewrite flush_app. apply IH.
Qed.

(** The words before a hard split leave the loop in the state whose flush
    is what the loop returns for those words alone. *)
Lemma wrap_words_before (fuel width : nat) :
  0 < width ->
  forall before,
    Forall (fun w => length w < fuel) before ->
    exists result current,
      wrap_words fuel width before [] [] = Ok (flush result current)
      /\ forall more,
           wrap_words fuel width (before ++ more) [] []
           = wrap_words fuel width more result current.
Proof.
  intros Hw before Hf.
  destruct (@wrap_words_prefix fuel width Hw before [] [] Hf)
    as (result & current & Hpre).
  exists result, current. split; [|exact Hpre].
  rewrite <- (app_nil_r before) at 1. rewrite Hpre. reflexivity.
Qed.

(** Wrapping the words joined by spaces is running the loop on the
    words. *)
Lemma wrapLine_join_words (fuel width : nat) (ws : list str) :
  0 < width ->
  Forall (fun w => forallb (fun c => negb (is_char space c)) w = true) ws ->
  Forall (fun w => length w < fuel) ws ->
  wrapLine (join [space] ws) width = wrap_words fuel width ws [] [].
Proof.
  intros Hw Hns Hf. destruct ws as [|x xs].
  - unfold wrapLine. simpl. destruct width as [|width]; [lia|]. reflexivity.
  - unfold wrapLine. pose proof (words_fuel (join [space] (x :: xs))) as Hf'.
    rewrite (@split_on_join space x xs Hns) in *.
    apply wrap_words_fuel; assumption.
Qed.

(** C4, as stated, fails for the tokens that whitespace separates: the
    wrapper cuts the line at spaces only, so a token that a tab joins to
    the next one is not split on its own. *)
Lemma wrapLine_token_not_split :
  ~ (forall line width,
        0 < width ->
        exists out,
          wrapLine line width = Ok out
          /\ Forall (fun l => length l <= width) out
          /\ (forall t,
                 In t (tokens line) ->
                 width < length t ->
                 exists pre chunks post,
                   out = pre ++ chunks ++ post
                   /\ concat chunks = t
                   /\ length chunks = ceil_div (length t) width
                   /\ full_but_last width chunks)
          /\ wrapLine [] width = Ok []).
Proof.
  intros H.
  destruct (H (lit "aaaa"%string ++ tab :: lit "bbbb"%string) 3)
    as (out & E & _ & Hsplit & _); [lia|].
  vm_compute in E. injection E as <-.
  destruct (Hsplit (lit "aaaa"%string))
    as (pre & chunks & post & Hout & Hcat & Hlen & _).
  - vm_compute. left. reflexivity.
  - simpl. lia.
  - vm_compute in Hlen.
    destruct chunks as [|c1 [|c2 [|c3 chunks]]]; try discriminate Hlen.
    destruct pre as [|p1 [|p2 pre]]; [simpl in Hout|simpl in Hout|].
    + injection Hout as <- <- _. vm_compute in Hcat. discriminate Hcat.
    + injection Hout as _ <- <- _. vm_compute in Hcat. discriminate Hcat.
    + apply (f_equal (@length str)) in Hout.
      rewrite !length_app in Hout. simpl in Hout. lia.
Qed.

(** C4, amended. For every line and every width greater than 0,
    [wrapLine] ends and every line it returns has at most [width]
    characters. A word (a piece of the line between single spaces) longer
    than [width], wherever it stands in the line, is hard-split: the
    returned lines are those that the wrapper returns for the text before
    the word, which keep every character of that text other than spaces
    (the accumulated line is flushed, not dropped), then [ceil(len /
    width)] chunks that together spell the word, each of exactly [width]
    characters except a possibly shorter last one, then the lines that the
    wrapper returns for the text after the word. In particular a line
    that is one such word is returned as its chunks. The empty line gives
    the empty sequence. *)
Theorem wrapLine_contract (line : str) (width : nat) :
  0 < width ->
  (exists out,
      wrapLine line width = Ok out
      /\ Forall (fun l => length l <= width) out)
  /\ (forall before w after,
         split_on space line = before ++ w :: after ->
         width < length w ->
         exists pre chunks post,
           wrapLine line width = Ok (pre ++ chunks ++ post)
           /\ wrapLine (join [space] before) width = Ok pre
           /\ concat (map visible pre) = visible (join [space] before)
           /\ concat chunks = w
           /\ length chunks = ceil_div (length w) width
           /\ full_but_last width chunks
           /\ wrapLine (join [space] after) width = Ok post)
  /\ (Forall (fun c => c <> space) line ->
      width < length line ->
      exists chunks,
        wrapLine line width = Ok chunks
        /\ concat chunks = line
        /\ length chunks = ceil_div (length line) width
        /\ full_but_last width chunks)
  /\ wrapLine [] width = Ok [].
Proof.
  intros Hw. pose proof (words_fuel line) as Hfuel. repeat split.
  - destruct (@wrap_words_fits (S (length line)) width Hw
                (split_on space line) [] []) as (out & E & Hfit);
      [exact Hfuel|constructor|simpl; lia|].
    exists out. split; [exact E|].
    eapply Forall_impl; [|exact Hfit]. unfold fits. simpl; intros; lia.
  - intros before w after Hsplit Hlong.
    pose proof (split_by_pieces (is_char space) line) as Hpieces.
    fold (split_on space line) in Hpieces.
    rewrite Hsplit in Hfuel, Hpieces.
    apply Forall_app in Hfuel. destruct Hfuel as [Hbefore Hrest].
    apply Forall_app in Hpieces. destruct Hpieces as [Hnsb Hnsr].
    inversion Hrest as [|? ? Hwf Hafter]; subst.
    inversion Hnsr as [|? ? _ Hnsa]; subst.
    destruct (@wrap_words_before (S (length line)) width Hw before Hbefore)
      as (result & current & Epre & Hpre).
    destruct (@chunk_loop_spec w width Hw (S (length line)) 0)
      as (chunks & E & Hcat & Hlen & Hshape & _); [lia|].
    destruct (@wrap_words_fits (S (length line)) width Hw after [] [])
      as (post & Epost & _); [exact Hafter|constructor|simpl; lia|].
    destruct (@wrap_words_visible (S (length line)) width Hw before [] []
                Hbefore) as (pre & Epre' & Hvis).
    rewrite Epre in Epre'. injection Epre' as <-.
    exists (flush result current), chunks, post.
    rewrite Nat.sub_0_r in Hlen.
    repeat split; try assumption.
    + unfold wrapLine. rewrite Hsplit, Hpre. cbn [wrap_words].
      apply Nat.ltb_lt in Hlong. rewrite Hlong, E. cbn [bind].
      rewrite <- (app_nil_r (flush result current ++ chunks)).
      rewrite wrap_words_result_app, Epost, <- app_assoc. reflexivity.
    + rewrite (@wrapLine_join_words (S (length line)) width before Hw Hnsb
                 Hbefore). exact Epre.
    + rewrite Hvis, visible_join. reflexivity.
    + rewrite (@wrapLine_join_words (S (length line)) width after Hw Hnsa
                 Hafter). exact Epost.
  - intros Hnosp Hlong.
    destruct (@chunk_loop_spec line width Hw (S (length line)) 0)
      as (chunks & E & Hcat & Hlen & Hshape & _); [lia|].
    exists chunks. rewrite Nat.sub_0_r in Hlen.
    repeat split; try assumption.
    unfold wrapLine, split_on. rewrite split_by_no_sep.
    + cbn [wrap_words]. apply Nat.ltb_lt in Hlong. rewrite Hlong, E.
      cbn [bind wrap_words flush truthy app]. reflexivity.
    + eapply Forall_impl; [|exact Hnosp]. unfold is_char. simpl.
      intros c Hc. apply N.eqb_neq. exact Hc.
  - unfold wrapLine. simpl. destruct width as [|width]; [lia|].
    reflexivity.
Qed.

Lemma wrapLine_contract_witness :
  0 < 3
  /\ split_on space (lit "ab aaaa"%string ++ tab :: lit "bbbb ij"%string)
     = [lit "ab"%string]
       ++ (lit "aaaa"%string ++ tab :: lit "bbbb"%string)
       :: [lit "ij"%string]
  /\ 3 < length (lit "aaaa"%string ++ tab :: lit "bbbb"%string)
  /\ exists pre chunks post,
       wrapLine (lit "ab aaaa"%string ++ tab :: lit "bbbb ij"%string) 3
       = Ok (pre ++ chunks ++ post)
       /\ wrapLine (join [space] [lit "ab"%string]) 3 = Ok pre
       /\ concat (map visible pre) = visible (join [space] [lit "ab"%string])
       /\ concat chunks = lit "aaaa"%string ++ tab :: lit "bbbb"%string
       /\ length chunks
          = ceil_div (length (lit "aaaa"%string ++ tab :: lit "bbbb"%string)) 3
       /\ full_but_last 3 chunks
       /\ wrapLine (join [space] [lit "ij"%string]) 3 = Ok post.
Proof.
  assert (Hw : 0 < 3) by lia.
  assert (Hlong : 3 < length (lit "aaaa"%string ++ tab :: lit "bbbb"%string))
    by (simpl; lia).
  split; [exact Hw|]. split; [reflexivity|]. split; [exact Hlong|].
  exact (proj1 (proj2 (@wrapLine_contract
                         (lit "ab aaaa"%string ++ tab :: lit "bbbb ij"%string)
                         3 Hw))
           [lit "ab"%string]
           (lit "aaaa"%string ++ tab :: lit "bbbb"%string)
           [lit "ij"%string] eq_refl Hlong).
Defined.
